(** * IMG-ZIP-MOD: cleaning an image archive by manifest and by folder size

    A shallow embedding of [src/IMG-ZIP-MOD.py].  The helpers
    [get_expected_size] and [is_within_tolerance] are pure functions on
    strings and integers; the passes over the extracted directory are
    programs in a small state-and-exception monad whose state is the
    directory tree together with the trace of calls made to the outside
    world ([Image.open], [os.remove], [st.warning]). *)

From Stdlib Require Import ZArith List String Ascii Bool Lia.
From Stdlib Require Import Numbers.DecimalString.
From Stdlib Require DecimalPos DecimalZ.
From stdpp Require Import base gmap sets strings.

Import ListNotations.
Local Open Scope string_scope.
Local Open Scope Z_scope.

(** ** Python strings

    A [str] is modelled as a [string] whose characters are the code points
    below 256; names with other code points are outside the model.  Only
    the operations the program applies are defined. *)

Module PyStr.

Definition code (c : ascii) : Z := Z.of_N (N_of_ascii c).

Definition chr (z : Z) : ascii := ascii_of_N (Z.to_N z).

(** [str.lower] on one code point: [A-Z], and the Latin-1 capitals
    (0xC0..0xDE without the multiplication sign 0xD7). *)
Definition lower_char (c : ascii) : ascii :=
  let n := code c in
  if ((65 <=? n) && (n <=? 90)) || ((192 <=? n) && (n <=? 222) && negb (n =? 215))
  then chr (n + 32) else c.

Fixpoint lower (s : string) : string :=
  match s with
  | EmptyString => EmptyString
  | String c s' => String (lower_char c) (lower s')
  end.

(** [s.split(sep)] for a one-character separator: every occurrence cuts,
    so the result has one more piece than [s] has separators. *)
Fixpoint split (sep : ascii) (s : string) : list string :=
  match s with
  | EmptyString => [EmptyString]
  | String c s' =>
      if Ascii.eqb c sep then EmptyString :: split sep s'
      else match split sep s' with
           | p :: ps => String c p :: ps
           | [] => [String c EmptyString]
           end
  end.

(** White space as [int] sees it. *)
Definition is_space (c : ascii) : bool :=
  let n := code c in
  ((9 <=? n) && (n <=? 13)) || (n =? 32) || (n =? 133) || (n =? 160).

Definition is_digit (c : ascii) : bool :=
  let n := code c in (48 <=? n) && (n <=? 57).

Fixpoint lstrip (l : list ascii) : list ascii :=
  match l with
  | c :: l' => if is_space c then lstrip l' else l
  | [] => []
  end.

Definition strip (l : list ascii) : list ascii :=
  rev (lstrip (rev (lstrip l))).

(** Decimal digits with single underscores between them; [prev] tells
    whether the previous character was a digit. *)
Fixpoint digits (acc : Z) (prev : bool) (l : list ascii) : option Z :=
  match l with
  | [] => if prev then Some acc else None
  | c :: l' =>
      if is_digit c then digits (10 * acc + (code c - 48)) true l'
      else if Ascii.eqb c "_" then (if prev then digits acc false l' else None)
      else None
  end.

(** The default of [sys.get_int_max_str_digits()]: [int] refuses a
    numeral with more digits. *)
Definition max_str_digits : nat := 4300.

Definition count_digits (l : list ascii) : nat :=
  List.length (List.filter is_digit l).

(** [int(s)] in base ten; [None] stands for [ValueError]. *)
Definition int (s : string) : option Z :=
  match strip (list_ascii_of_string s) with
  | c :: l =>
      if (max_str_digits <? count_digits (c :: l))%nat then None
      else if Ascii.eqb c "+" then digits 0 false l
      else if Ascii.eqb c "-" then option_map Z.opp (digits 0 false l)
      else digits 0 false (c :: l)
  | [] => None
  end.

(** [str(n)] for an integer. *)
Definition of_Z (z : Z) : string := NilZero.string_of_int (Z.to_int z).

(** [str(t)] for a pair of integers, as an f-string prints a tuple. *)
Definition of_size (p : Z * Z) : string :=
  "(" ++ of_Z (fst p) ++ ", " ++ of_Z (snd p) ++ ")".

End PyStr.

(** ** The two pure helpers *)

Definition size : Type := (Z * Z)%type.

(** [get_expected_size]: the unpacking [w, h = ...] raises [ValueError]
    unless the split has exactly two pieces, and so does [int] on a piece
    that is no integer literal; both are caught and give [None]. *)
Definition get_expected_size (folder_name : string) : option size :=
  match PyStr.split "x" (PyStr.lower folder_name) with
  | [w; h] =>
      match PyStr.int w, PyStr.int h with
      | Some w', Some h' => Some (w', h')
      | _, _ => None
      end
  | _ => None
  end.

Definition is_within_tolerance (actual_size expected_size : size) (tolerance : Z) : bool :=
  (Z.abs (fst actual_size - fst expected_size) <=? tolerance) &&
  (Z.abs (snd actual_size - snd expected_size) <=? tolerance).

(** ** Paths (POSIX flavour of [os.path]) *)

Module PyPath.

Definition sep : ascii := "/".

Definition starts_with_sep (s : string) : bool :=
  match s with String c _ => Ascii.eqb c sep | EmptyString => false end.

Fixpoint ends_with_sep (s : string) : bool :=
  match s with
  | EmptyString => false
  | String c EmptyString => Ascii.eqb c sep
  | String _ s' => ends_with_sep s'
  end.

(** [os.path.join(a, b)]: an absolute [b] discards [a]; otherwise one
    separator is put between them unless [a] is empty or already ends
    with one. *)
Definition join (a b : string) : string :=
  if starts_with_sep b then b
  else if String.eqb a EmptyString || ends_with_sep a then a ++ b
  else a ++ String sep b.

(** Index of the last occurrence of [c] in [s], counted from [i];
    [-1] when there is none ([str.rfind]). *)
Fixpoint rfind_from (c : ascii) (s : string) (i : Z) : Z :=
  match s with
  | EmptyString => -1
  | String a s' =>
      let r := rfind_from c s' (i + 1) in
      if 0 <=? r then r else if Ascii.eqb a c then i else -1
  end.

Definition rfind (c : ascii) (s : string) : Z := rfind_from c s 0.

(** The loop of [genericpath._splitext] that skips leading dots: [true]
    when a character other than a dot stands before [dotIndex]. *)
Fixpoint non_dot_before (fuel : nat) (p : string) (filenameIndex dotIndex : Z) : bool :=
  match fuel with
  | O => false
  | S k =>
      if filenameIndex <? dotIndex then
        match String.get (Z.to_nat filenameIndex) p with
        | Some c =>
            if negb (Ascii.eqb c ".") then true
            else non_dot_before k p (filenameIndex + 1) dotIndex
        | None => false
        end
      else false
  end.

(** [os.path.splitext(p)]: the extension starts at the last dot, unless
    that dot comes before the last separator or only dots precede it in
    the last component. *)
Definition splitext (p : string) : string * string :=
  let sepIndex := rfind sep p in
  let dotIndex := rfind "." p in
  if (sepIndex <? dotIndex) &&
     non_dot_before (String.length p) p (sepIndex + 1) dotIndex
  then (String.substring 0 (Z.to_nat dotIndex) p,
        String.substring (Z.to_nat dotIndex) (String.length p - Z.to_nat dotIndex) p)
  else (p, EmptyString).

(** A directory reached by [os.walk] is kept as the list of the entry
    names that lead to it from the directory the walk started at;
    [root_path] is the string [os.walk] yields for it. *)
Definition root_path (base_dir : string) (rel : list string) : string :=
  fold_left join rel base_dir.

(** [os.path.relpath(root, base_dir)] for such a directory: the
    components after the common prefix, joined, or ["."] when there is
    none. *)
Definition relpath (rel : list string) : string :=
  match rel with
  | [] => "."
  | c :: cs => fold_left join cs c
  end.

End PyPath.

(** ** The extracted directory *)

(** The exceptions the program can meet; [OSError] is the class the
    specification calls [IOFailure]. *)
Inductive exn : Type :=
| OSError (msg : string)
| UnidentifiedImageError (msg : string)
| BadZipFile (msg : string)
| UnicodeDecodeError (msg : string)
| ValueError (msg : string).

Definition exn_str (e : exn) : string :=
  match e with
  | OSError m | UnidentifiedImageError m | BadZipFile m | UnicodeDecodeError m
  | ValueError m => m
  end.

(** A regular file: its name, its bytes, and the error [os.remove] meets
    on it, if any (a read-only directory, a file held open elsewhere). *)
Record file : Type := File {
  fname : string;
  fdata : string;
  funlink : option string
}.

#[warnings="-register-all"]
Inductive tree : Type :=
| Dir (files : list file) (subdirs : list (string * tree)).

Definition tree_files (t : tree) : list file :=
  match t with Dir fs _ => fs end.

Definition tree_subdirs (t : tree) : list (string * tree) :=
  match t with Dir _ ds => ds end.

(** One triple [(root, dirs, files)] of [os.walk]. *)
Definition entry : Type := (list string * list string * list file)%type.

(** [os.walk(top)], top-down: the directory itself, then each
    subdirectory in listing order. *)
Fixpoint walk_from (rel : list string) (t : tree) : list entry :=
  match t with
  | Dir fs ds =>
      (rel, map fst ds, fs) ::
      flat_map (fun nd => walk_from (rel ++ [fst nd]) (snd nd)) ds
  end.

Definition walk (t : tree) : list entry := walk_from [] t.

(** Unlinking a name in the directory [rel] leads to; names are unique
    there in a real directory, so one file goes. *)
Fixpoint remove_path (rel : list string) (name : string) (t : tree) : tree :=
  match rel, t with
  | [], Dir fs ds =>
      Dir (List.filter (fun f => negb (String.eqb (fname f) name)) fs) ds
  | c :: cs, Dir fs ds =>
      Dir fs (map (fun nd => if String.eqb (fst nd) c
                             then (fst nd, remove_path cs name (snd nd))
                             else nd) ds)
  end.

(** [file_at t rel f]: [f] is a file of the directory [rel] leads to. *)
Fixpoint file_at (t : tree) (rel : list string) (f : file) : Prop :=
  match rel with
  | [] => In f (tree_files t)
  | c :: cs => exists d, In (c, d) (tree_subdirs t) /\ file_at d cs f
  end.

(** ** The outside world and the monad of the passes *)

Inductive event : Type :=
| Opened (path : string)
| RemoveCalled (path : string)
| Warned (msg : string).

Record world : Type := World {
  fs : tree;
  trace : list event
}.

Inductive outcome (A : Type) : Type :=
| Returned (a : A)
| Raised (e : exn).

Arguments Returned {A} a.
Arguments Raised {A} e.

Definition M (A : Type) : Type := world -> outcome A * world.

Definition ret {A} (a : A) : M A := fun w => (Returned a, w).

Definition bind {A B} (m : M A) (k : A -> M B) : M B :=
  fun w => match m w with
           | (Returned a, w') => k a w'
           | (Raised e, w') => (Raised e, w')
           end.

Definition raise {A} (e : exn) : M A := fun w => (Raised e, w).

(** [try: m  except Exception as e: h e]. *)
Definition try_except {A} (m : M A) (h : exn -> M A) : M A :=
  fun w => match m w with
           | (Raised e, w') => h e w'
           | r => r
           end.

Definition emit (ev : event) : M unit :=
  fun w => (Returned tt, World (fs w) (trace w ++ [ev])%list).

Definition modify_fs (g : tree -> tree) : M unit :=
  fun w => (Returned tt, World (g (fs w)) (trace w)).

Declare Scope py_scope.
Delimit Scope py_scope with py.
Notation "x <- m ;; k" := (bind m (fun x => k))
  (at level 60, m at next level, right associativity) : py_scope.
Notation "m ;;; k" := (bind m (fun _ => k))
  (at level 60, right associativity) : py_scope.
Local Open Scope py_scope.

(** A [for] loop that carries the local variable the body updates. *)
Fixpoint for_in {X A} (l : list X) (acc : A) (body : A -> X -> M A) : M A :=
  match l with
  | [] => ret acc
  | x :: l' => acc' <- body acc x ;; for_in l' acc' body
  end.

(** [os.walk(base_dir)], listed from the tree as it stands.  The loops
    below unlink regular files of the directory being visited only, so
    the listing of a directory visited later is what it was at the start. *)
Definition os_walk : M (list entry) := fun w => (Returned (walk (fs w)), w).

Definition os_remove (path : string) (rel : list string) (f : file) : M unit :=
  emit (RemoveCalled path) ;;;
  match funlink f with
  | Some msg => raise (OSError msg)
  | None => modify_fs (remove_path rel (fname f))
  end.

Definition st_warning (msg : string) : M unit := emit (Warned msg).

Section Passes.

(** [Image.open(path).size] as a function of the file's bytes: the
    pixel size, or the exception raised for bytes that are no image. *)
Variable image_size : string -> exn + size.

Definition Image_open_size (path : string) (f : file) : M size :=
  emit (Opened path) ;;;
  match image_size (fdata f) with
  | inl e => raise e
  | inr s => ret s
  end.

Definition folder_name_of (root : list string) : string :=
  match PyStr.split PyPath.sep (PyPath.relpath root) with
  | p :: _ => p
  | [] => EmptyString
  end.

Definition warning_text (file_path : string) (e : exn) : string :=
  "Could not open " ++ file_path ++ ": " ++ exn_str e.

Definition deletion_record (f : file) (expected_size actual_size : size) : string :=
  fname f ++ " | Expected: " ++ PyStr.of_size expected_size ++
  ", Actual: " ++ PyStr.of_size actual_size.

(** The body of the inner loop of [check_and_delete_by_size]. *)
Definition check_file (base_dir : string) (tolerance : Z) (root : list string)
    (expected_size : option size) (deleted_by_size : list string) (f : file)
  : M (list string) :=
  let file_path := PyPath.join (PyPath.root_path base_dir root) (fname f) in
  try_except
    (actual_size <- Image_open_size file_path f ;;
     match expected_size with
     | Some expected =>
         if negb (is_within_tolerance actual_size expected tolerance) then
           os_remove file_path root f ;;;
           ret (deleted_by_size ++ [deletion_record f expected actual_size])%list
         else ret deleted_by_size
     | None => ret deleted_by_size
     end)
    (fun e => st_warning (warning_text file_path e) ;;; ret deleted_by_size).

Definition check_and_delete_by_size (base_dir : string) (tolerance : Z) : M (list string) :=
  entries <- os_walk ;;
  for_in entries [] (fun deleted_by_size '(root, _, files) =>
    let folder_name := folder_name_of root in
    let expected_size := get_expected_size folder_name in
    for_in files deleted_by_size (check_file base_dir tolerance root expected_size)).

End Passes.

Definition list_files_not_in_txt (base_dir : string) (retain_list : gset string)
  : M (gset string * gset string) :=
  entries <- os_walk ;;
  found_names <- for_in entries (∅ : gset string) (fun found_names '(root, _, files) =>
    for_in files found_names (fun found_names f =>
      let '(name, _) := PyPath.splitext (fname f) in
      ret (found_names ∪ {[name]}))) ;;
  let not_in_list := found_names ∖ retain_list in
  let not_in_zip := retain_list ∖ found_names in
  ret (not_in_list, not_in_zip).

(** The body of the inner loop of [delete_unlisted_images]. *)
Definition delete_file_if_unlisted (base_dir : string) (retain_list : gset string)
    (root : list string) (deleted : list string) (f : file) : M (list string) :=
  let '(name, _) := PyPath.splitext (fname f) in
  if bool_decide (name ∉ retain_list) then
    os_remove (PyPath.join (PyPath.root_path base_dir root) (fname f)) root f ;;;
    ret (deleted ++ [fname f])%list
  else ret deleted.

Definition delete_unlisted_images (base_dir : string) (retain_list : gset string)
  : M (list string) :=
  entries <- os_walk ;;
  for_in entries [] (fun deleted '(root, _, files) =>
    for_in files deleted (delete_file_if_unlisted base_dir retain_list root)).

(** ** Archives *)

(** A member of a zip archive: its name inside the archive and its bytes.
    A name that ends with a separator stands for a directory. *)
Record member : Type := Member {
  zname : string;
  zdata : string
}.

Definition archive : Type := list member.

Definition is_dir (m : member) : bool := PyPath.ends_with_sep (zname m).

(** The components [ZipFile._extract_member] keeps of a member name:
    empty, ["."] and [".."] pieces are dropped. *)
Definition member_parts (m : member) : list string :=
  List.filter (fun x => negb (String.eqb x EmptyString || String.eqb x "." || String.eqb x ".."))
              (PyStr.split PyPath.sep (zname m)).

Definition has_file (name : string) (t : tree) : bool :=
  existsb (fun f => String.eqb (fname f) name) (tree_files t).

Definition has_subdir (name : string) (t : tree) : bool :=
  existsb (fun nd => String.eqb (fst nd) name) (tree_subdirs t).

(** [open(target, "wb")] and the copy, in the directory it lands in:
    refused when the name is a directory, otherwise the file is created
    or its bytes are replaced. *)
Definition write_file (name data : string) (t : tree) : option tree :=
  if has_subdir name t then None
  else if has_file name t then
    Some (Dir (map (fun f => if String.eqb (fname f) name
                             then File name data (funlink f) else f) (tree_files t))
              (tree_subdirs t))
  else Some (Dir (tree_files t ++ [File name data None]) (tree_subdirs t)).

(** Going down [parts], creating the directories that are missing
    ([os.makedirs], [os.mkdir]), then acting on the directory reached.
    [None] when a regular file stands where a directory is needed or the
    final action is refused.  A name is looked up among the
    subdirectories; where names are unique, as in every tree extraction
    builds, one subdirectory answers to it. *)
Fixpoint install (parts : list string) (leaf : tree -> option tree) (t : tree) : option tree :=
  match parts with
  | [] => leaf t
  | c :: cs =>
      if has_file c t then None
      else if has_subdir c t then
        ds' ← mapM (fun nd => if String.eqb (fst nd) c
                              then d' ← install cs leaf (snd nd); Some (fst nd, d')
                              else Some nd) (tree_subdirs t);
        Some (Dir (tree_files t) ds')
      else
        d' ← install cs leaf (Dir [] []);
        Some (Dir (tree_files t) (tree_subdirs t ++ [(c, d')]))
  end.

(** [ZipFile._extract_member] on the tree under the extraction root,
    for a member whose path the file system accepts.  [None] stands for
    the error the member meets.  A file member with no component left
    (a name such as [".."]) is written by the program onto the
    extraction path itself; the tree cannot hold that, and the model
    lets the member fail. *)
Definition extract_member (m : member) (t : tree) : option tree :=
  let parts := member_parts m in
  if is_dir m then install parts Some t
  else match rev parts with
       | [] => None
       | name :: upper => install (rev upper) (write_file name (zdata m)) t
       end.

(** The length of a name in the bytes the file system stores (UTF-8):
    a code point from 128 on takes two. *)
Fixpoint byte_length (s : string) : nat :=
  match s with
  | EmptyString => O
  | String c s' => ((if (PyStr.code c <? 128)%Z then 1 else 2) + byte_length s')%nat
  end.

Definition has_nul (s : string) : bool :=
  existsb (Ascii.eqb Ascii.zero) (list_ascii_of_string s).

(** The paths [mkdir] and [open] take.  Python refuses a path with a NUL
    in it; the file system ([NAME_MAX] and [PATH_MAX] of Linux) fails
    with [ENAMETOOLONG] on a component of more than 255 bytes or a path
    of 4096 bytes or more. *)
Definition path_fits (extract_to : string) (parts : list string) : bool :=
  forallb (fun c => negb (has_nul c) && (byte_length c <=? 255)%nat) parts &&
  (byte_length (PyPath.root_path extract_to parts) <? 4096)%nat.

(** A member that cannot be written raises; the directories made for it
    before the failure are not kept in the tree. *)
Definition ZipFile_extract (extract_to : string) (m : member) : M unit :=
  fun w =>
    if path_fits extract_to (member_parts m) then
      match extract_member m (fs w) with
      | Some t => (Returned tt, World t (trace w))
      | None => (Raised (OSError ("cannot extract " ++ zname m)), w)
      end
    else if existsb has_nul (member_parts m)
    then (Raised (ValueError "embedded null byte"), w)
    else (Raised (OSError ("File name too long: " ++ zname m)), w).

(** [shutil.rmtree]: fails on the first file that cannot be unlinked.
    What a failed call has already removed is not tracked: the tree is
    then left as it was. *)
Definition shutil_rmtree : M unit :=
  fun w =>
    match List.find (fun f => match funlink f with Some _ => true | None => false end)
                    (flat_map (fun e => snd e) (walk (fs w))) with
    | Some f => (Raised (OSError (default EmptyString (funlink f))), w)
    | None => (Returned tt, World (Dir [] []) (trace w))
    end.

(** [extract_zip]: [zip_file] is [None] when the uploaded bytes are no
    zip archive.  A missing extraction directory and an empty one are the
    same tree. *)
Definition extract_zip (zip_file : option archive) (extract_to : string) : M unit :=
  shutil_rmtree ;;;
  match zip_file with
  | None => raise (BadZipFile "File is not a zip file")
  | Some zip_ref => for_in zip_ref tt (fun _ m => ZipFile_extract extract_to m)
  end.

(** [create_zip_from_folder]: the archive written is returned. *)
Definition create_zip_from_folder (folder_path zip_path : string) : M archive :=
  entries <- os_walk ;;
  for_in entries ([] : archive) (fun zipf '(root, _, files) =>
    for_in files zipf (fun zipf f =>
      let arcname := PyPath.relpath (root ++ [fname f]) in
      ret (zipf ++ [Member arcname (fdata f)])%list)).

(** Running a program from a given tree with an empty trace. *)
Definition run {A} (m : M A) (t : tree) : outcome A * world := m (World t []).

(** ** Well-formed directories *)

Fixpoint nodupb (l : list string) : bool :=
  match l with
  | [] => true
  | x :: l' => negb (existsb (String.eqb x) l') && nodupb l'
  end.

(** Within one directory no two files and no two subdirectories share a
    name. *)
Fixpoint unique_names (t : tree) : bool :=
  match t with
  | Dir fs ds =>
      nodupb (map fname fs) && nodupb (map fst ds) &&
      forallb (fun nd => unique_names (snd nd)) ds
  end.

Fixpoint has_sep (s : string) : bool :=
  match s with
  | EmptyString => false
  | String c s' => Ascii.eqb c PyPath.sep || has_sep s'
  end.

(** What the file system allows as the name of an entry, as far as the
    program can tell the difference. *)
Definition valid_name (s : string) : bool :=
  negb (String.eqb s EmptyString) && negb (has_sep s).

Fixpoint dir_names_valid (t : tree) : bool :=
  match t with
  | Dir _ ds => forallb (fun nd => valid_name (fst nd) && dir_names_valid (snd nd)) ds
  end.

(** ** Auxiliary definitions for the statements *)

(** The files of the walk, each with the directory it was listed in. *)
Definition walk_files_from (pre : list string) (t : tree) : list (list string * file) :=
  flat_map (fun e : entry => map (pair (fst (fst e))) (snd e)) (walk_from pre t).

Definition walk_files (t : tree) : list (list string * file) := walk_files_from [] t.

(** Removing from a tree the files of a list that a test selects. *)
Definition prune (sel : list string * file -> bool) (l : list (list string * file))
    (t : tree) : tree :=
  fold_left (fun t rf => if sel rf then remove_path (fst rf) (fname (snd rf)) t else t) l t.

(** The path string the passes build for a file of the walk. *)
Definition path_of (base_dir : string) (rf : list string * file) : string :=
  PyPath.join (PyPath.root_path base_dir (fst rf)) (fname (snd rf)).

(** The expected size the size pass works with in a directory. *)
Definition expected_of (rf : list string * file) : option size :=
  get_expected_size (folder_name_of (fst rf)).

Section SizeSteps.

Variable image_size : string -> exn + size.
Variable base_dir : string.
Variable tolerance : Z.

(** The file decodes, its folder carries a size, and the two differ by
    more than the tolerance. *)
Definition mismatch (rf : list string * file) : option (size * size) :=
  match image_size (fdata (snd rf)), expected_of rf with
  | inr actual, Some expected =>
      if negb (is_within_tolerance actual expected tolerance)
      then Some (expected, actual) else None
  | _, _ => None
  end.

Definition size_removed (rf : list string * file) : bool :=
  match mismatch rf, funlink (snd rf) with
  | Some _, None => true
  | _, _ => false
  end.

Definition size_records (rf : list string * file) : list string :=
  match mismatch rf, funlink (snd rf) with
  | Some (expected, actual), None => [deletion_record (snd rf) expected actual]
  | _, _ => []
  end.

Definition size_events (rf : list string * file) : list event :=
  Opened (path_of base_dir rf) ::
  match image_size (fdata (snd rf)) with
  | inl e => [Warned (warning_text (path_of base_dir rf) e)]
  | inr _ =>
      match mismatch rf with
      | Some _ =>
          RemoveCalled (path_of base_dir rf) ::
          match funlink (snd rf) with
          | Some msg => [Warned (warning_text (path_of base_dir rf) (OSError msg))]
          | None => []
          end
      | None => []
      end
  end.

Definition size_step (deleted : list string) (rf : list string * file) : M (list string) :=
  check_file image_size base_dir tolerance (fst rf) (expected_of rf) deleted (snd rf).

End SizeSteps.

(** ** Sample data

    A stand-in for the image decoder in examples: the bytes of a sample
    image are the text ["<width>x<height>"]; anything else is no image. *)
Definition sample_decoder (data : string) : exn + size :=
  match get_expected_size data with
  | Some s => inr s
  | None => inl (UnidentifiedImageError "cannot identify image file")
  end.

Definition sample_file (name data : string) : file := File name data None.

Definition tree_100x200 : tree :=
  Dir [] [("100x200", Dir [sample_file "a.png" "101x199"] [])].

(** A size folder with a nested folder, an untagged folder with a file
    that is no image, and a file at the root. *)
Definition tree_nested : tree :=
  Dir [sample_file "root.png" "7x7"]
      [("100x200", Dir [sample_file "a.png" "100x200"]
                       [("deep", Dir [sample_file "e.png" "1x1"] [])]);
       ("misc", Dir [sample_file "m.png" "9x9"; sample_file "notes.txt" "hello"] [])].

(** A size folder holding a folder with a size of its own: the inner
    folder has one file of the outer size and one file of the inner
    size. *)
Definition tree_two_levels : tree :=
  Dir [] [("100x200", Dir [] [("1x1", Dir [sample_file "k.png" "100x200";
                                           sample_file "e.png" "1x1"] [])])].

(** ** Auxiliary definitions for the name passes *)

(** The identifier of a file: its name without the extension. *)
Definition stem (f : file) : string := fst (PyPath.splitext (fname f)).

Definition unlisted (retain_list : gset string) (rf : list string * file) : bool :=
  bool_decide (stem (snd rf) ∉ retain_list).

(** The identifiers found in a tree. *)
Definition found_names_of (t : tree) : gset string :=
  list_to_set (map (fun rf => stem (snd rf)) (walk_files t)).

(** The calls to [os.remove] a run of delete-unlisted makes over a list
    of files. *)
Definition unlisted_removals (base_dir : string) (retain_list : gset string)
    (l : list (list string * file)) : list event :=
  map (fun rf => RemoveCalled (path_of base_dir rf)) (List.filter (unlisted retain_list) l).

(** One iteration of the inner loop of [delete_unlisted_images]. *)
Definition du_step (base_dir : string) (retain_list : gset string)
    (deleted : list string) (rf : list string * file) : M (list string) :=
  delete_file_if_unlisted base_dir retain_list (fst rf) deleted (snd rf).

Definition tree_scenario : tree :=
  Dir [] [("50x50", Dir [sample_file "a.png" "50x50"; sample_file "c.png" "50x50"] [])].

(** A size folder whose first file cannot be unlinked. *)
Definition tree_locked : tree :=
  Dir [] [("10x10", Dir [File "a.png" "50x50" (Some "[Errno 13] Permission denied");
                         sample_file "b.png" "50x50"] [])].

(** ** Auxiliary definitions for the round trip *)

(** A file called [name] with bytes [data] lies in the directory [rel]
    leads to. *)
Definition content_at (t : tree) (rel : list string) (name data : string) : Prop :=
  exists f, file_at t rel f /\ fname f = name /\ fdata f = data.

(** [rel] leads to a directory. *)
Fixpoint dir_at (t : tree) (rel : list string) : Prop :=
  match rel with
  | [] => True
  | c :: cs => exists d, In (c, d) (tree_subdirs t) /\ dir_at d cs
  end.

(** [ok] holds of every directory [parts] leads to. *)
Fixpoint all_at (ok : tree -> Prop) (t : tree) (parts : list string) : Prop :=
  match parts with
  | [] => ok t
  | c :: cs => forall d, In (c, d) (tree_subdirs t) -> all_at ok d cs
  end.

(** What the action at the end of [install] may do: it keeps the
    subdirectories, drops the files whose name is in [K] and adds the
    contents in [N]. *)
Definition leaf_spec (leaf : tree -> option tree)
    (K : string -> Prop) (N : string -> string -> Prop) : Prop :=
  forall d d', leaf d = Some d' ->
    tree_subdirs d' = tree_subdirs d /\
    forall n dat, content_at d' [] n dat <-> (content_at d [] n dat /\ ~ K n) \/ N n dat.

(** One step of [install] below an existing directory [c]. *)
Definition install_sub (c : string) (cs : list string) (leaf : tree -> option tree)
    (nd : string * tree) : option (string * tree) :=
  if String.eqb (fst nd) c
  then d' ← install cs leaf (snd nd); Some (fst nd, d')
  else Some nd.

(** The members of an archive extracted one after the other. *)
Fixpoint extract_all (ar : archive) (t : tree) : option tree :=
  match ar with
  | [] => Some t
  | m :: ar' => t' ← extract_member m t; extract_all ar' t'
  end.

(** Extraction followed at once by the rebuild, with the paths [main]
    uses. *)
Definition roundtrip (zip_file : archive) : M archive :=
  extract_zip (Some zip_file) "temp_extracted" ;;;
  create_zip_from_folder "temp_extracted" "filtered_output.zip".

Fixpoint prefixb (p q : list string) : bool :=
  match p, q with
  | [], _ => true
  | a :: p', b :: q' => String.eqb a b && prefixb p' q'
  | _ :: _, [] => false
  end.

(** The name of a file member is already what extraction makes of it:
    relative, without empty, ["."] or [".."] pieces. *)
Definition normal_name (m : member) : bool :=
  match member_parts m with
  | [] => false
  | c :: cs => String.eqb (fold_left PyPath.join cs c) (zname m)
  end.

(** Two members cannot both be extracted: the path of one that is a
    file is the path of the other or leads to it. *)
Definition clash (m m' : member) : bool :=
  (negb (is_dir m) && prefixb (member_parts m) (member_parts m')) ||
  (negb (is_dir m') && prefixb (member_parts m') (member_parts m)).

Fixpoint conflict_free (ar : archive) : bool :=
  match ar with
  | [] => true
  | m :: ar' => forallb (fun m' => negb (clash m m')) ar' && conflict_free ar'
  end.

Definition valid_archive (ar : archive) : bool :=
  forallb (fun m => is_dir m || normal_name m) ar && conflict_free ar.

(** The file system accepts the path of every member under
    [extract_to]. *)
Definition archive_fits (extract_to : string) (ar : archive) : bool :=
  forallb (fun m => path_fits extract_to (member_parts m)) ar.

(** An archive as zip tools write it, with entries for its folders, one
    of them empty. *)
Definition archive_with_folder : archive :=
  [Member "100x200/" EmptyString; Member "100x200/a.png" "100x200";
   Member "empty/" EmptyString].

Definition archive_files_only : archive :=
  [Member "100x200/a.png" "100x200"; Member "misc/deep/m.png" "9x9"; Member "top.txt" "hello"].

(** What the tree holds after the members [seen] have been extracted:
    every file is the file of a member, and every directory is on the
    way to one. *)
Definition extracted_from (t : tree) (seen : archive) : Prop :=
  (forall rel n dat, content_at t rel n dat ->
     exists s, In s seen /\ is_dir s = false /\ member_parts s = (rel ++ [n])%list) /\
  (forall p, p <> [] -> dir_at t p ->
     exists s, In s seen /\ (exists r, member_parts s = (p ++ r)%list) /\
               (is_dir s = true \/ p <> member_parts s)).

(** The member [m] is a file stored at [rel], under the name [n]. *)
Definition file_member_at (m : member) (rel : list string) (n : string) : Prop :=
  is_dir m = false /\ member_parts m = (rel ++ [n])%list.

(** The member [create_zip_from_folder] writes for a file of the walk. *)
Definition member_of (rf : list string * file) : member :=
  Member (PyPath.relpath (fst rf ++ [fname (snd rf)])) (fdata (snd rf)).

(** ** Induction on trees *)

Section TreeInd.
Variable P : tree -> Prop.
Hypothesis HDir : forall fs ds, Forall (fun nd => P (snd nd)) ds -> P (Dir fs ds).

Fixpoint tree_ind' (t : tree) : P t :=
  match t with
  | Dir fs ds =>
      HDir fs ds
        ((fix sub (l : list (string * tree)) : Forall (fun nd => P (snd nd)) l :=
            match l with
            | [] => List.Forall_nil _
            | nd :: l' => List.Forall_cons _ nd _ (tree_ind' (snd nd)) (sub l')
            end) ds)
  end.
End TreeInd.


(** ** The manifest and the actions of [main] *)

(** [str.isspace] on a code point below 256, the white space
    [str.strip] removes. *)
Definition str_isspace (c : ascii) : bool :=
  let n := PyStr.code c in
  ((9 <=? n) && (n <=? 13)) || ((28 <=? n) && (n <=? 32)) || (n =? 133) || (n =? 160).

Fixpoint lstrip_spaces (l : list ascii) : list ascii :=
  match l with
  | c :: l' => if str_isspace c then lstrip_spaces l' else l
  | [] => []
  end.

(** [s.strip()]. *)
Definition str_strip (s : string) : string :=
  string_of_list_ascii
    (rev (lstrip_spaces (rev (lstrip_spaces (list_ascii_of_string s))))).

Definition LF : ascii := ascii_of_nat 10.
Definition CR : ascii := ascii_of_nat 13.

(** Reading in text mode: ["\r\n"] and a lone ["\r"] become ["\n"]. *)
Fixpoint universal_newlines (s : string) : string :=
  match s with
  | EmptyString => EmptyString
  | String c s' =>
      if Ascii.eqb c CR then
        match s' with
        | String c' s'' =>
            if Ascii.eqb c' LF then String LF (universal_newlines s'')
            else String LF (universal_newlines s')
        | EmptyString => String LF EmptyString
        end
      else String c (universal_newlines s')
  end.

(** [for line in f]: the lines with their terminator; the last one has
    none when the text does not end with a newline. *)
Fixpoint file_lines (s : string) : list string :=
  match s with
  | EmptyString => []
  | String c s' =>
      if Ascii.eqb c LF then String LF EmptyString :: file_lines s'
      else match file_lines s' with
           | l :: ls => String c l :: ls
           | [] => [String c EmptyString]
           end
  end.

(** [retain_list = {line.strip() for line in f if line.strip()}], on the
    decoded text of the uploaded list. *)
Definition load_retain_list (text : string) : gset string :=
  list_to_set
    (List.filter (fun x => negb (String.eqb x EmptyString))
                 (map str_strip (file_lines (universal_newlines text)))).

(** The body of the "Clean All" button. *)
Definition clean_all (base_dir : string) (retain_list : gset string) (tolerance : Z)
    (image_size : string -> exn + size) : M (list string * list string) :=
  deleted <- delete_unlisted_images base_dir retain_list ;;
  deleted_by_size <- check_and_delete_by_size image_size base_dir tolerance ;;
  ret (deleted, deleted_by_size).

(** The calls of one run of [main] that touch the extracted tree, in
    the order [main] makes them; the three flags are the values the
    three buttons return in this run.  [uploaded_txt] is the text
    [open(txt_path, 'r')] decodes from the uploaded list, [None] when the
    bytes do not decode: the set comprehension then raises
    [UnicodeDecodeError], before anything is extracted.  The calls that
    only display ([st.success], [st.code], ...) are left out. *)
Definition main_actions (image_size : string -> exn + size)
    (uploaded_zip : option archive) (uploaded_txt : option string) (tolerance : Z)
    (delete_not_in_list delete_incorrect_size clean_all_pressed : bool) : M archive :=
  let extract_path := "temp_extracted" in
  match uploaded_txt with
  | None => raise (UnicodeDecodeError "invalid start byte")
  | Some text =>
      let retain_list := load_retain_list text in
      extract_zip uploaded_zip extract_path ;;;
      report <- list_files_not_in_txt extract_path retain_list ;;
      (if delete_not_in_list
       then delete_unlisted_images extract_path retain_list ;;; ret tt
       else ret tt) ;;;
      (if delete_incorrect_size
       then check_and_delete_by_size image_size extract_path tolerance ;;; ret tt
       else ret tt) ;;;
      (if clean_all_pressed
       then clean_all extract_path retain_list tolerance image_size ;;; ret tt
       else ret tt) ;;;
      create_zip_from_folder extract_path "filtered_output.zip"
  end.

(** [c] occurs in [s]. *)
Fixpoint has_char (c : ascii) (s : string) : bool :=
  match s with
  | EmptyString => false
  | String a s' => Ascii.eqb a c || has_char c s'
  end.

Fixpoint count_char (c : ascii) (s : string) : nat :=
  match s with
  | EmptyString => O
  | String a s' => if Ascii.eqb a c then S (count_char c s') else count_char c s'
  end.

(** Every file of the tree satisfies [p]. *)
Definition all_files (p : file -> Prop) (t : tree) : Prop :=
  forall rel f, file_at t rel f -> p f.

Definition removable (f : file) : bool :=
  match funlink f with None => true | Some _ => false end.

(** [os.remove] would succeed on every file of the tree. *)
Definition all_removable (t : tree) : bool :=
  forallb (fun rf => removable (snd rf)) (walk_files t).

(** The value of a decimal numeral read from the left, starting from
    [acc]. *)
Fixpoint uint_val (acc : Z) (d : Decimal.uint) : Z :=
  match d with
  | Decimal.Nil => acc
  | Decimal.D0 l => uint_val (10 * acc + 0) l
  | Decimal.D1 l => uint_val (10 * acc + 1) l
  | Decimal.D2 l => uint_val (10 * acc + 2) l
  | Decimal.D3 l => uint_val (10 * acc + 3) l
  | Decimal.D4 l => uint_val (10 * acc + 4) l
  | Decimal.D5 l => uint_val (10 * acc + 5) l
  | Decimal.D6 l => uint_val (10 * acc + 6) l
  | Decimal.D7 l => uint_val (10 * acc + 7) l
  | Decimal.D8 l => uint_val (10 * acc + 8) l
  | Decimal.D9 l => uint_val (10 * acc + 9) l
  end.

(** A character of a printed integer: a digit or the minus sign. *)
Definition is_numeral_char (c : ascii) : bool :=
  PyStr.is_digit c || Ascii.eqb c "-".

Fixpoint string_forall (p : ascii -> bool) (s : string) : bool :=
  match s with
  | EmptyString => true
  | String c s' => p c && string_forall p s'
  end.

(** The directories of a walk: each root with the names of its
    subdirectories. *)
Definition walk_dirs (t : tree) : list (list string * list string) :=
  map (fun e : entry => fst e) (walk t).

(** ** File members and what the passes make of them *)

(** The folder a file member is extracted to, and its name there. *)
Definition member_dir (m : member) : list string := List.removelast (member_parts m).

Definition member_base (m : member) : string := List.last (member_parts m) EmptyString.

(** The identifier of the file is in the retain set. *)
Definition member_listed (retain_list : gset string) (m : member) : bool :=
  bool_decide (fst (PyPath.splitext (member_base m)) ∈ retain_list).

(** The size pass has nothing against the file: its bytes do not
    decode, its folder gives no expected size, or the two sizes agree
    within the tolerance. *)
Definition member_fits (image_size : string -> exn + size) (tolerance : Z)
    (m : member) : bool :=
  match image_size (zdata m), get_expected_size (folder_name_of (member_dir m)) with
  | inr actual, Some expected => is_within_tolerance actual expected tolerance
  | _, _ => true
  end.

(** The tree holds the file members of [ar] that satisfy [S], each with
    its bytes, all of them free to be unlinked, and nothing else. *)
Definition holds_members (ar : archive) (S : member -> Prop) (t : tree) : Prop :=
  (forall rel f, file_at t rel f ->
     funlink f = None /\
     exists m, In m ar /\ is_dir m = false /\ S m /\
               member_parts m = (rel ++ [fname f])%list /\ zdata m = fdata f) /\
  (forall m, In m ar -> is_dir m = false -> S m ->
     exists rel f, file_at t rel f /\
                   member_parts m = (rel ++ [fname f])%list /\ zdata m = fdata f).

(** From a tree that holds the members satisfying [S], the program
    returns and leaves a tree that holds the members satisfying [S']. *)
Definition passes {A} (ar : archive) (prog : M A)
    (S S' : member -> Prop) : Prop :=
  forall w, holds_members ar S (fs w) ->
    exists a w', prog w = (Returned a, w') /\ holds_members ar S' (fs w').

(** * Properties *)

(** ** The walk and [file_at] *)

Lemma walk_files_from_Dir pre fs ds :
  walk_files_from pre (Dir fs ds) =
  (map (pair pre) fs ++
   flat_map (fun nd => walk_files_from (pre ++ [fst nd]) (snd nd)) ds)%list.
Proof.
  unfold walk_files_from. simpl. f_equal.
  induction ds as [|nd ds IH]; simpl; [reflexivity|].
  rewrite flat_map_app. f_equal. exact IH.
Qed.

Lemma in_walk_files_from t : forall pre r f,
  In (r, f) (walk_files_from pre t) <->
  exists rel, r = (pre ++ rel)%list /\ file_at t rel f.
Proof.
  induction t as [fs ds IH] using tree_ind'. intros pre r f.
  rewrite walk_files_from_Dir, in_app_iff, in_map_iff, in_flat_map. split.
  - intros [(g & Hg & Hin) | ((c, d) & Hin & Hsub)].
    + inversion Hg; subst. exists []. rewrite app_nil_r. simpl. auto.
    + rewrite List.Forall_forall in IH. apply (IH _ Hin) in Hsub.
      destruct Hsub as (rel & -> & Hat). exists (c :: rel). simpl.
      rewrite <- app_assoc. simpl. eauto.
  - intros (rel & -> & Hat). destruct rel as [|c cs]; simpl in Hat.
    + left. exists f. rewrite app_nil_r. auto.
    + right. destruct Hat as (d & Hin & Hat). exists (c, d). split; [exact Hin|].
      rewrite List.Forall_forall in IH. apply (IH _ Hin). exists cs.
      simpl. rewrite <- app_assoc. auto.
Qed.

Lemma in_walk_files t rel f : In (rel, f) (walk_files t) <-> file_at t rel f.
Proof.
  unfold walk_files. rewrite in_walk_files_from. simpl. split.
  - intros (r & -> & H). exact H.
  - intros H. eauto.
Qed.

(** ** Unlinking *)

Lemma file_at_remove_path rel name : forall t rel' f,
  file_at (remove_path rel name t) rel' f <->
  file_at t rel' f /\ ~ (rel' = rel /\ fname f = name).
Proof.
  induction rel as [|c cs IH]; intros [fs ds] rel' f.
  - destruct rel' as [|c' cs']; simpl.
    + rewrite filter_In, negb_true_iff, String.eqb_neq. tauto.
    + split; [intros H; split; [exact H|intros [? _]; discriminate] | tauto].
  - destruct rel' as [|c' cs']; simpl.
    + split; [intros H; split; [exact H|intros [? _]; discriminate] | tauto].
    + split.
      * intros (d & Hin & Hat). apply in_map_iff in Hin.
        destruct Hin as ((n, d0) & Heq & Hin). simpl in Heq.
        destruct (String.eqb_spec n c) as [->|Hne].
        -- inversion Heq; subst. apply IH in Hat. destruct Hat as [Hat Hno].
           split; [eauto|]. intros [E1 E2]. inversion E1; subst. tauto.
        -- inversion Heq; subst. split; [eauto|]. intros [E1 _]. inversion E1; congruence.
      * intros ((d & Hin & Hat) & Hno).
        destruct (String.eqb_spec c' c) as [->|Hne].
        -- exists (remove_path cs name d). split.
           ++ apply in_map_iff. exists (c, d). simpl. rewrite String.eqb_refl. auto.
           ++ apply IH. split; [exact Hat|]. intros [-> E2]. apply Hno. auto.
        -- exists d. split; [|exact Hat]. apply in_map_iff. exists (c', d). simpl.
           destruct (String.eqb_spec c' c); [contradiction|auto].
Qed.

(** ** Loops *)

Lemma for_in_app {X A} (l1 l2 : list X) (body : A -> X -> M A) : forall acc w,
  for_in (l1 ++ l2) acc body w =
  (acc' <- for_in l1 acc body ;; for_in l2 acc' body) w.
Proof.
  induction l1 as [|x l1 IH]; intros acc w; simpl; [reflexivity|].
  unfold bind. destruct (body acc x w) as [[a|e] w'].
  - rewrite IH. reflexivity.
  - reflexivity.
Qed.

(** The two nested loops over [os.walk] are one loop over the files of
    the walk. *)
Lemma for_in_walk {A} (body : list string -> A -> file -> M A) (entries : list entry) :
  forall acc w,
  for_in entries acc (fun a '(root, _, files) => for_in files a (body root)) w =
  for_in (flat_map (fun e : entry => map (pair (fst (fst e))) (snd e)) entries) acc
         (fun a rf => body (fst rf) a (snd rf)) w.
Proof.
  induction entries as [|[[root dn] files] entries IH]; intros acc w; simpl; [reflexivity|].
  rewrite for_in_app. unfold bind.
  assert (Hin : forall a w0, for_in (map (pair root) files) a
                       (fun a rf => body (fst rf) a (snd rf)) w0 =
                     for_in files a (body root) w0).
  { clear. induction files as [|f files IH]; intros a w0; simpl; [reflexivity|].
    unfold bind. destruct (body root a f w0) as [[a'|e] w']; [apply IH|reflexivity]. }
  rewrite Hin. destruct (for_in files acc (body root) w) as [[a|e] w'].
  - apply IH.
  - reflexivity.
Qed.

(** A loop whose body only computes. *)
Lemma for_in_pure {X A} (g : A -> X -> A) (l : list X) : forall acc w,
  for_in l acc (fun a x => ret (g a x)) w = (Returned (fold_left g l acc), w).
Proof.
  induction l as [|x l IH]; intros acc w; simpl; [reflexivity|].
  unfold bind, ret at 1. apply IH.
Qed.

Lemma file_at_prune sel l : forall t rel f,
  file_at (prune sel l t) rel f <->
  file_at t rel f /\
  ~ exists g, In (rel, g) l /\ sel (rel, g) = true /\ fname g = fname f.
Proof.
  unfold prune. induction l as [|[r g] l IH]; intros t rel f; simpl.
  - split; [intros H; split; [exact H|intros (g & [] & _)] | tauto].
  - rewrite IH. destruct (sel (r, g)) eqn:Hsel; simpl.
    + rewrite file_at_remove_path. split.
      * intros [[Hat Hno] Hno']. split; [exact Hat|].
        intros (g' & [Heq|Hin] & Hs & Hn).
        -- inversion Heq; subst. auto.
        -- apply Hno'. eauto.
      * intros [Hat Hno]. split; [split; [exact Hat|]|].
        -- intros [-> Hn]. apply Hno. exists g. auto.
        -- intros (g' & Hin & Hs & Hn). apply Hno. exists g'. auto.
    + split.
      * intros [Hat Hno]. split; [exact Hat|].
        intros (g' & [Heq|Hin] & Hs & Hn).
        -- inversion Heq; subst. congruence.
        -- apply Hno. eauto.
      * intros [Hat Hno]. split; [exact Hat|].
        intros (g' & Hin & Hs & Hn). apply Hno. exists g'. auto.
Qed.

(** ** The size pass, file by file *)

Section SizePass.

Variable image_size : string -> exn + size.
Variable base_dir : string.
Variable tolerance : Z.

Lemma size_step_run deleted rf w :
  size_step image_size base_dir tolerance deleted rf w =
  (Returned (deleted ++ size_records image_size tolerance rf)%list,
   World (if size_removed image_size tolerance rf then remove_path (fst rf) (fname (snd rf)) (fs w) else fs w)
         (trace w ++ size_events image_size base_dir tolerance rf)%list).
Proof.
  destruct rf as [root f]. destruct w as [t tr].
  unfold size_step, check_file, size_removed, size_records, size_events, mismatch,
    try_except, Image_open_size, os_remove, st_warning, bind, emit, raise, ret,
    modify_fs, path_of.
  simpl. destruct (image_size (fdata f)) as [e|actual]; simpl.
  - rewrite app_nil_r, <- app_assoc. reflexivity.
  - destruct (expected_of (root, f)) as [expected|]; simpl.
    + destruct (is_within_tolerance actual expected tolerance); simpl.
      * rewrite app_nil_r. reflexivity.
      * destruct (funlink f) as [msg|]; simpl.
        -- rewrite app_nil_r, <- !app_assoc. reflexivity.
        -- rewrite <- !app_assoc. reflexivity.
    + rewrite app_nil_r. reflexivity.
Qed.

Lemma size_loop_run l : forall deleted w,
  for_in l deleted (size_step image_size base_dir tolerance) w =
  (Returned (deleted ++ flat_map (size_records image_size tolerance) l)%list,
   World (prune (size_removed image_size tolerance) l (fs w))
         (trace w ++ flat_map (size_events image_size base_dir tolerance) l)%list).
Proof.
  induction l as [|rf l IH]; intros deleted w; simpl.
  - rewrite !app_nil_r. destruct w; reflexivity.
  - unfold bind. rewrite size_step_run, IH. simpl.
    rewrite <- !app_assoc. reflexivity.
Qed.

(** The whole pass never raises; it returns the records of the files
    it unlinked, in walk order. *)
Lemma check_and_delete_by_size_run w :
  check_and_delete_by_size image_size base_dir tolerance w =
  (Returned (flat_map (size_records image_size tolerance) (walk_files (fs w))),
   World (prune (size_removed image_size tolerance) (walk_files (fs w)) (fs w))
         (trace w ++ flat_map (size_events image_size base_dir tolerance) (walk_files (fs w)))%list).
Proof.
  unfold check_and_delete_by_size, os_walk, bind at 1.
  rewrite (for_in_walk (fun root => check_file image_size base_dir tolerance root
                          (get_expected_size (folder_name_of root)))).
  apply (size_loop_run (walk_files (fs w)) [] w).
Qed.

End SizePass.

(** ** Names *)

Lemma nodupb_inj {X} (k : X -> string) (l : list X) a b :
  nodupb (map k l) = true -> In a l -> In b l -> k a = k b -> a = b.
Proof.
  induction l as [|x l IH]; simpl; [tauto|].
  rewrite andb_true_iff, negb_true_iff. intros [Hx Hl] Ha Hb Hk.
  assert (Hnot : forall y, In y l -> k x <> k y).
  { intros y Hy E. apply not_true_iff_false in Hx. apply Hx.
    apply existsb_exists. exists (k y). split; [apply in_map; exact Hy|].
    apply String.eqb_eq. exact E. }
  destruct Ha as [->|Ha], Hb as [->|Hb]; auto.
  - exfalso. apply (Hnot b Hb). exact Hk.
  - exfalso. apply (Hnot a Ha). symmetry. exact Hk.
Qed.

Lemma unique_names_file rel : forall t f g,
  unique_names t = true -> file_at t rel f -> file_at t rel g ->
  fname f = fname g -> f = g.
Proof.
  induction rel as [|c cs IH]; intros [fs ds] f g Hu Hf Hg Hn; simpl in *;
    rewrite !andb_true_iff in Hu; destruct Hu as [[Hfs Hds] Hsub].
  - exact (nodupb_inj fname fs f g Hfs Hf Hg Hn).
  - destruct Hf as (d & Hd & Hf), Hg as (d' & Hd' & Hg).
    assert (E : (c, d) = (c, d')) by (apply (nodupb_inj fst ds); auto).
    inversion E; subst d'. rewrite forallb_forall in Hsub.
    apply (IH d f g (Hsub _ Hd) Hf Hg Hn).
Qed.

Lemma walk_from_valid t : forall pre r dn fs,
  dir_names_valid t = true -> In (r, dn, fs) (walk_from pre t) ->
  exists rel, r = (pre ++ rel)%list /\ forallb valid_name rel = true /\
    match rel with
    | [] => True
    | c :: _ => In c (map fst (tree_subdirs t))
    end.
Proof.
  induction t as [fs0 ds IH] using tree_ind'. intros pre r dn fs Hv Hin.
  simpl in Hin. destruct Hin as [Heq|Hin].
  - inversion Heq; subst. exists []. rewrite app_nil_r. auto.
  - apply in_flat_map in Hin. destruct Hin as ((c, d) & Hcd & Hin).
    simpl in Hv. rewrite forallb_forall in Hv. specialize (Hv _ Hcd).
    simpl in Hv. apply andb_true_iff in Hv. destruct Hv as [Hc Hd].
    rewrite List.Forall_forall in IH.
    destruct (IH _ Hcd _ _ _ _ Hd Hin) as (rel & -> & Hrel & _).
    exists (c :: rel). simpl. rewrite <- app_assoc, Hc, Hrel. simpl.
    repeat split. apply in_map_iff. exists (c, d). auto.
Qed.

Lemma string_app_cons x (a b : string) : String x a ++ b = String x (a ++ b).
Proof. reflexivity. Qed.

Lemma string_app_nil_l (b : string) : EmptyString ++ b = b.
Proof. reflexivity. Qed.

Lemma string_app_assoc (a b c : string) : (a ++ b) ++ c = a ++ (b ++ c).
Proof.
  induction a as [|x a IH]; [reflexivity|].
  rewrite !string_app_cons, IH. reflexivity.
Qed.

Lemma string_app_nil_r (a : string) : a ++ EmptyString = a.
Proof.
  induction a as [|x a IH]; [reflexivity|].
  rewrite string_app_cons, IH. reflexivity.
Qed.

Lemma ends_with_sep_app a b :
  b <> EmptyString -> PyPath.ends_with_sep (a ++ b) = PyPath.ends_with_sep b.
Proof.
  intros Hb. induction a as [|x a IH]; [reflexivity|].
  rewrite string_app_cons. simpl. destruct (a ++ b) eqn:E.
  - destruct a; [rewrite string_app_nil_l in E; contradiction|discriminate].
  - exact IH.
Qed.

Lemma ends_with_sep_no_sep s : has_sep s = false -> PyPath.ends_with_sep s = false.
Proof.
  induction s as [|x s IH]; simpl; [reflexivity|].
  rewrite orb_false_iff. intros [Hx Hs]. destruct s; [exact Hx|apply IH; exact Hs].
Qed.

Lemma split_head c tail :
  has_sep c = false -> tail = EmptyString \/ PyPath.starts_with_sep tail = true ->
  exists ps, PyStr.split PyPath.sep (c ++ tail) = c :: ps.
Proof.
  induction c as [|x c IH].
  - intros _ [->|Ht]; [simpl; eauto|]. rewrite string_app_nil_l.
    destruct tail as [|y tail]; simpl in *; [discriminate|].
    rewrite Ht. eauto.
  - intros Hxc Ht. simpl in Hxc. apply orb_false_iff in Hxc. destruct Hxc as [Hx Hc].
    rewrite string_app_cons. simpl. rewrite Hx.
    destruct (IH Hc Ht) as (ps & ->). eauto.
Qed.

Lemma relpath_shape c : forall cs acc,
  forallb valid_name cs = true ->
  (exists tail, acc = c ++ tail /\ (tail = EmptyString \/ PyPath.starts_with_sep tail = true)) ->
  acc <> EmptyString -> PyPath.ends_with_sep acc = false ->
  exists tail, fold_left PyPath.join cs acc = c ++ tail /\
               (tail = EmptyString \/ PyPath.starts_with_sep tail = true).
Proof.
  induction cs as [|b cs IH]; intros acc Hcs Hacc Hne Hend; simpl; [exact Hacc|].
  simpl in Hcs. apply andb_true_iff in Hcs. destruct Hcs as [Hb Hcs].
  unfold valid_name in Hb. apply andb_true_iff in Hb.
  rewrite !negb_true_iff in Hb. destruct Hb as [Hb1 Hb2].
  apply String.eqb_neq in Hb1.
  assert (Hjoin : PyPath.join acc b = acc ++ String PyPath.sep b).
  { unfold PyPath.join. destruct b as [|y b]; [contradiction|]. simpl in Hb2.
    apply orb_false_iff in Hb2. destruct Hb2 as [Hy _]. simpl. rewrite Hy, Hend.
    destruct (String.eqb_spec acc EmptyString); [contradiction|reflexivity]. }
  rewrite Hjoin. apply IH; [exact Hcs| | |].
  - destruct Hacc as (tail & -> & Ht). exists (tail ++ String PyPath.sep b).
    split.
    + apply string_app_assoc.
    + right. destruct Ht as [->|Ht]; [reflexivity|].
      destruct tail; [discriminate|exact Ht].
  - destruct acc; [contradiction|discriminate].
  - rewrite ends_with_sep_app by discriminate.
    simpl. destruct b as [|y b]; [contradiction|]. apply (ends_with_sep_no_sep _ Hb2).
Qed.

Lemma folder_name_of_cons c cs :
  forallb valid_name (c :: cs) = true -> folder_name_of (c :: cs) = c.
Proof.
  simpl. rewrite andb_true_iff. intros [Hc Hcs].
  unfold valid_name in Hc. apply andb_true_iff in Hc.
  rewrite !negb_true_iff in Hc. destruct Hc as [Hc1 Hc2]. apply String.eqb_neq in Hc1.
  destruct (relpath_shape c cs c Hcs) as (tail & Heq & Ht).
  - exists EmptyString. split; [|auto]. symmetry. apply string_app_nil_r.
  - exact Hc1.
  - apply ends_with_sep_no_sep. exact Hc2.
  - unfold folder_name_of. simpl. rewrite Heq.
    destruct (split_head c tail Hc2 Ht) as (ps & ->). reflexivity.
Qed.

(** ** The helpers on sample inputs *)

Example get_expected_size_100x200 : get_expected_size "100x200" = Some (100, 200).
Proof. reflexivity. Qed.

Example get_expected_size_upper : get_expected_size "50X50" = Some (50, 50).
Proof. reflexivity. Qed.

Example get_expected_size_misc : get_expected_size "misc" = None.
Proof. reflexivity. Qed.

Example get_expected_size_dot : get_expected_size "." = None.
Proof. reflexivity. Qed.

Example get_expected_size_three : get_expected_size "1x2x3" = None.
Proof. reflexivity. Qed.

Example get_expected_size_lenient : get_expected_size " 1_0 x-2" = Some (10, -2).
Proof. reflexivity. Qed.

Example of_size_ex : PyStr.of_size (100, 200) = "(100, 200)".
Proof. reflexivity. Qed.

Example splitext_last_dot : PyPath.splitext "a.tar.gz" = ("a.tar", ".gz").
Proof. reflexivity. Qed.

Example splitext_leading_dot : PyPath.splitext ".bashrc" = (".bashrc", EmptyString).
Proof. reflexivity. Qed.

Example folder_name_of_nested : folder_name_of ["100x200"; "deep"] = "100x200".
Proof. reflexivity. Qed.

Example walk_tree_nested :
  map (fun e : entry => fst (fst e)) (walk tree_nested) =
  [[]; ["100x200"]; ["100x200"; "deep"]; ["misc"]].
Proof. reflexivity. Qed.

(** ** What the size pass leaves in the tree *)

Section SizePassFacts.

Variable image_size : string -> exn + size.
Variable base_dir : string.
Variable tolerance : Z.

Lemma size_pass_file_at t rel f :
  file_at (fs (snd (run (check_and_delete_by_size image_size base_dir tolerance) t))) rel f <->
  file_at t rel f /\
  ~ exists g, file_at t rel g /\ size_removed image_size tolerance (rel, g) = true /\
              fname g = fname f.
Proof.
  unfold run. rewrite check_and_delete_by_size_run. simpl.
  rewrite file_at_prune. split; intros [Hat Hno]; (split; [exact Hat|]);
    intros (g & Hg & Hs & Hn); apply Hno; exists g; repeat split; auto;
    apply in_walk_files; exact Hg.
Qed.

Lemma size_pass_event t rel f ev :
  file_at t rel f -> In ev (size_events image_size base_dir tolerance (rel, f)) ->
  In ev (trace (snd (run (check_and_delete_by_size image_size base_dir tolerance) t))).
Proof.
  intros Hat Hev. unfold run. rewrite check_and_delete_by_size_run. simpl.
  apply in_flat_map. exists (rel, f). split; [apply in_walk_files; exact Hat|exact Hev].
Qed.

Lemma size_pass_returns t :
  fst (run (check_and_delete_by_size image_size base_dir tolerance) t) =
  Returned (flat_map (size_records image_size tolerance) (walk_files t)).
Proof. unfold run. rewrite check_and_delete_by_size_run. reflexivity. Qed.

Lemma size_removed_exempt rel g :
  get_expected_size (folder_name_of rel) = None ->
  size_removed image_size tolerance (rel, g) = false.
Proof.
  intros Hex. unfold size_removed, mismatch, expected_of. simpl. rewrite Hex.
  destruct (image_size (fdata g)); reflexivity.
Qed.

End SizePassFacts.

(** ** The claims about the size pass *)




Lemma file_at_valid rel : forall t f,
  dir_names_valid t = true -> file_at t rel f -> forallb valid_name rel = true.
Proof.
  induction rel as [|c cs IH]; intros [fs0 ds] f Hv Hat; [reflexivity|].
  simpl in Hat. destruct Hat as (d & Hin & Hat).
  simpl in Hv. rewrite forallb_forall in Hv. specialize (Hv _ Hin).
  simpl in Hv. apply andb_true_iff in Hv. destruct Hv as [Hc Hd].
  simpl. rewrite Hc. simpl. exact (IH d f Hd Hat).
Qed.

(** C2. For a file that lies below the root of a tree whose directory
    names are names a file system allows, at the path [c :: cs] from
    the root, the size pass infers the expected size from [c], the name
    of the folder directly under the root, whatever the folders [cs]
    below it are called: a file that decodes stays in the tree exactly
    when [c] is no size tag, or its size is within the tolerance of the
    size read off [c], or [os.remove] refuses to unlink it; and when the
    pass removes it, the returned list holds its record with the size
    read off [c] as the expected one. *)
Theorem size_pass_uses_top_level_folder
    (image_size : string -> exn + size) (base_dir : string) (tolerance : Z)
    (t : tree) (c : string) (cs : list string) (f : file) (actual : size) :
  dir_names_valid t = true ->
  unique_names t = true ->
  file_at t (c :: cs) f ->
  image_size (fdata f) = inr actual ->
  let r := run (check_and_delete_by_size image_size base_dir tolerance) t in
  In c (map fst (tree_subdirs t)) /\
  folder_name_of (c :: cs) = c /\
  (file_at (fs (snd r)) (c :: cs) f <->
     match get_expected_size c with
     | Some expected => is_within_tolerance actual expected tolerance = true
     | None => True
     end \/ funlink f <> None) /\
  (forall expected,
     get_expected_size c = Some expected ->
     is_within_tolerance actual expected tolerance = false ->
     funlink f = None ->
     exists deleted, fst r = Returned deleted /\
                     In (deletion_record f expected actual) deleted).
Proof.
  intros Hv Hu Hat Hdec r.
  assert (Hname : folder_name_of (c :: cs) = c).
  { apply folder_name_of_cons. exact (file_at_valid (c :: cs) t f Hv Hat). }
  assert (Hmis : mismatch image_size tolerance (c :: cs, f) =
                 match get_expected_size c with
                 | Some expected =>
                     if negb (is_within_tolerance actual expected tolerance)
                     then Some (expected, actual) else None
                 | None => None
                 end).
  { unfold mismatch, expected_of. simpl. rewrite Hdec, Hname. reflexivity. }
  split; [|split; [exact Hname|split]].
  - simpl in Hat. destruct Hat as (d & Hin & _). apply in_map_iff.
    exists (c, d). split; [reflexivity|exact Hin].
  - unfold r. rewrite size_pass_file_at. split.
    + intros [_ Hno].
      destruct (get_expected_size c) as [expected|] eqn:Hexp; [|left; exact I].
      destruct (is_within_tolerance actual expected tolerance) eqn:Hw; [left; reflexivity|].
      right. intros Hrm. apply Hno. exists f. split; [exact Hat|]. split; [|reflexivity].
      unfold size_removed. rewrite Hmis. simpl. rewrite Hrm. reflexivity.
    + intros Hkeep. split; [exact Hat|]. intros (g & Hg & Hs & Hn).
      assert (g = f) by (apply (unique_names_file (c :: cs) t); auto). subst g.
      unfold size_removed in Hs. rewrite Hmis in Hs.
      destruct (get_expected_size c) as [expected|]; [|discriminate].
      destruct (is_within_tolerance actual expected tolerance) eqn:Hw; [discriminate|].
      simpl in Hs. destruct (funlink f) eqn:Hl; [discriminate|].
      destruct Hkeep as [Hk|Hk]; [discriminate|]. apply Hk. reflexivity.
  - intros expected Hexp Hw Hl. unfold r, run.
    rewrite check_and_delete_by_size_run. eexists. split; [reflexivity|].
    apply in_flat_map. exists (c :: cs, f). split.
    + apply in_walk_files. exact Hat.
    + unfold size_records. rewrite Hmis, Hexp, Hw. simpl. rewrite Hl. left. reflexivity.
Qed.

Lemma size_pass_uses_top_level_folder_witness :
  let r := run (check_and_delete_by_size sample_decoder "temp_extracted" 0) tree_two_levels in
  file_at (fs (snd r)) ["100x200"; "1x1"] (sample_file "k.png" "100x200") /\
  ~ file_at (fs (snd r)) ["100x200"; "1x1"] (sample_file "e.png" "1x1") /\
  exists deleted, fst r = Returned deleted /\
                  In "e.png | Expected: (100, 200), Actual: (1, 1)" deleted.
Proof.
  intros r.
  assert (Hk : file_at tree_two_levels ["100x200"; "1x1"] (sample_file "k.png" "100x200")).
  { simpl. eexists. split; [left; reflexivity|]. simpl.
    eexists. split; [left; reflexivity|]. simpl. left. reflexivity. }
  assert (He : file_at tree_two_levels ["100x200"; "1x1"] (sample_file "e.png" "1x1")).
  { simpl. eexists. split; [left; reflexivity|]. simpl.
    eexists. split; [left; reflexivity|]. simpl. right. left. reflexivity. }
  pose proof (size_pass_uses_top_level_folder sample_decoder "temp_extracted" 0
                tree_two_levels "100x200" ["1x1"] (sample_file "k.png" "100x200") (100, 200)
                eq_refl eq_refl Hk eq_refl) as (_ & _ & Hkept & _).
  pose proof (size_pass_uses_top_level_folder sample_decoder "temp_extracted" 0
                tree_two_levels "100x200" ["1x1"] (sample_file "e.png" "1x1") (1, 1)
                eq_refl eq_refl He eq_refl) as (_ & _ & Hgone & Hrec).
  split; [|split].
  - apply Hkept. left. reflexivity.
  - intros Hin. apply Hgone in Hin. destruct Hin as [Hw|Hl]; [discriminate Hw|].
    apply Hl. reflexivity.
  - exact (Hrec (100, 200) eq_refl eq_refl eq_refl).
Defined.

(** C4. When a file of the walk fails to decode, the size pass still
    returns normally, the file stays in the tree, a warning made of the
    file path and the text of the error is emitted, and every file of
    the walk has been handed to the decoder. *)
Theorem decode_failure_is_skipped_with_warning
    (image_size : string -> exn + size) (base_dir : string) (tolerance : Z)
    (t : tree) (rel : list string) (f : file) (e : exn) :
  unique_names t = true ->
  file_at t rel f ->
  image_size (fdata f) = inl e ->
  let r := run (check_and_delete_by_size image_size base_dir tolerance) t in
  (exists deleted, fst r = Returned deleted) /\
  file_at (fs (snd r)) rel f /\
  In (Warned ("Could not open " ++ path_of base_dir (rel, f) ++ ": " ++ exn_str e))
     (trace (snd r)) /\
  (forall rel' g, file_at t rel' g -> In (Opened (path_of base_dir (rel', g))) (trace (snd r))).
Proof.
  intros Hu Hat Hdec r. subst r. repeat split.
  - eexists. apply size_pass_returns.
  - apply size_pass_file_at. split; [exact Hat|]. intros (g & Hg & Hs & Hn).
    assert (g = f) by (apply (unique_names_file rel t); auto). subst g.
    unfold size_removed, mismatch in Hs. simpl in Hs. rewrite Hdec in Hs. discriminate.
  - apply (size_pass_event image_size base_dir tolerance t rel f); [exact Hat|].
    unfold size_events. simpl. rewrite Hdec. right. left. reflexivity.
  - intros rel' g Hg. apply (size_pass_event image_size base_dir tolerance t rel' g);
      [exact Hg|]. left. reflexivity.
Qed.

Lemma decode_failure_is_skipped_with_warning_witness :
  let r := run (check_and_delete_by_size sample_decoder "temp_extracted" 1) tree_nested in
  (exists deleted, fst r = Returned deleted) /\
  file_at (fs (snd r)) ["misc"] (sample_file "notes.txt" "hello") /\
  In (Warned "Could not open temp_extracted/misc/notes.txt: cannot identify image file")
     (trace (snd r)) /\
  (forall rel' g, file_at tree_nested rel' g ->
     In (Opened (path_of "temp_extracted" (rel', g))) (trace (snd r))).
Proof.
  apply (decode_failure_is_skipped_with_warning sample_decoder "temp_extracted" 1
           tree_nested ["misc"] (sample_file "notes.txt" "hello")
           (UnidentifiedImageError "cannot identify image file")).
  - reflexivity.
  - simpl. eexists. split; [right; left; reflexivity|]. simpl. right. left. reflexivity.
  - reflexivity.
Defined.

(** C5. A file in a directory whose folder name gives no expected size
    is still in the tree after the size pass, whatever the decoder says
    of it. *)
Theorem unparsable_folder_is_exempt
    (image_size : string -> exn + size) (base_dir : string) (tolerance : Z)
    (t : tree) (rel : list string) (f : file) :
  file_at t rel f ->
  get_expected_size (folder_name_of rel) = None ->
  file_at (fs (snd (run (check_and_delete_by_size image_size base_dir tolerance) t))) rel f.
Proof.
  intros Hat Hex. apply size_pass_file_at. split; [exact Hat|].
  intros (g & _ & Hs & _). rewrite size_removed_exempt in Hs by exact Hex. discriminate.
Qed.

Lemma unparsable_folder_is_exempt_witness :
  file_at (fs (snd (run (check_and_delete_by_size sample_decoder "temp_extracted" 0)
                        tree_nested))) ["misc"] (sample_file "m.png" "9x9").
Proof.
  apply unparsable_folder_is_exempt.
  - simpl. eexists. split; [right; left; reflexivity|]. simpl. left. reflexivity.
  - reflexivity.
Defined.

(** C9. For the root of the walk the folder name is ["."], which gives no
    expected size, and a file directly at the root is still in the tree
    after the size pass, whatever the decoder says of it. *)
Theorem root_files_are_exempt
    (image_size : string -> exn + size) (base_dir : string) (tolerance : Z)
    (t : tree) (f : file) :
  file_at t [] f ->
  folder_name_of [] = "." /\
  get_expected_size "." = None /\
  file_at (fs (snd (run (check_and_delete_by_size image_size base_dir tolerance) t))) [] f.
Proof.
  intros Hat. repeat split.
  apply size_pass_file_at. split; [exact Hat|].
  intros (g & _ & Hs & _). rewrite size_removed_exempt in Hs by reflexivity. discriminate.
Qed.

Lemma root_files_are_exempt_witness :
  folder_name_of [] = "." /\
  get_expected_size "." = None /\
  file_at (fs (snd (run (check_and_delete_by_size sample_decoder "temp_extracted" 0)
                        tree_nested))) [] (sample_file "root.png" "7x7").
Proof.
  apply root_files_are_exempt. simpl. left. reflexivity.
Defined.

(** C10. The size pass hands every file of the walk to the decoder, also
    where the folder gives no expected size; a file there that fails to
    decode gets its warning and stays in the tree. *)
Theorem exempt_files_are_still_decoded
    (image_size : string -> exn + size) (base_dir : string) (tolerance : Z)
    (t : tree) (rel : list string) (f : file) (e : exn) :
  file_at t rel f ->
  get_expected_size (folder_name_of rel) = None ->
  image_size (fdata f) = inl e ->
  let r := run (check_and_delete_by_size image_size base_dir tolerance) t in
  (forall rel' g, file_at t rel' g -> In (Opened (path_of base_dir (rel', g))) (trace (snd r))) /\
  In (Opened (path_of base_dir (rel, f))) (trace (snd r)) /\
  In (Warned ("Could not open " ++ path_of base_dir (rel, f) ++ ": " ++ exn_str e))
     (trace (snd r)) /\
  file_at (fs (snd r)) rel f.
Proof.
  intros Hat Hex Hdec r. subst r.
  assert (Hopen : forall rel' g, file_at t rel' g ->
            In (Opened (path_of base_dir (rel', g)))
               (trace (snd (run (check_and_delete_by_size image_size base_dir tolerance) t)))).
  { intros rel' g Hg. apply (size_pass_event image_size base_dir tolerance t rel' g);
      [exact Hg|]. left. reflexivity. }
  repeat split.
  - exact Hopen.
  - apply Hopen. exact Hat.
  - apply (size_pass_event image_size base_dir tolerance t rel f); [exact Hat|].
    unfold size_events. simpl. rewrite Hdec. right. left. reflexivity.
  - apply size_pass_file_at. split; [exact Hat|].
    intros (g & _ & Hs & _). rewrite size_removed_exempt in Hs by exact Hex. discriminate.
Qed.

Lemma exempt_files_are_still_decoded_witness :
  let r := run (check_and_delete_by_size sample_decoder "temp_extracted" 1) tree_nested in
  (forall rel' g, file_at tree_nested rel' g ->
     In (Opened (path_of "temp_extracted" (rel', g))) (trace (snd r))) /\
  In (Opened "temp_extracted/misc/notes.txt") (trace (snd r)) /\
  In (Warned "Could not open temp_extracted/misc/notes.txt: cannot identify image file")
     (trace (snd r)) /\
  file_at (fs (snd r)) ["misc"] (sample_file "notes.txt" "hello").
Proof.
  apply (exempt_files_are_still_decoded sample_decoder "temp_extracted" 1
           tree_nested ["misc"] (sample_file "notes.txt" "hello")
           (UnidentifiedImageError "cannot identify image file")).
  - simpl. eexists. split; [right; left; reflexivity|]. simpl. right. left. reflexivity.
  - reflexivity.
  - reflexivity.
Defined.

(** ** The name passes *)

Lemma for_in_ext {X A} (body1 body2 : A -> X -> M A) (l : list X) :
  (forall a x w, body1 a x w = body2 a x w) ->
  forall acc w, for_in l acc body1 w = for_in l acc body2 w.
Proof.
  intros Hext. induction l as [|x l IH]; intros acc w; simpl; [reflexivity|].
  unfold bind. rewrite Hext. destruct (body2 acc x w) as [[a|e] w']; [apply IH|reflexivity].
Qed.

Lemma fold_found (l : list (list string * file)) : forall acc : gset string,
  fold_left (fun a rf => a ∪ {[stem (snd rf)]}) l acc =
  acc ∪ list_to_set (map (fun rf => stem (snd rf)) l).
Proof.
  induction l as [|rf l IH]; intros acc; simpl.
  - set_solver.
  - rewrite IH. set_solver.
Qed.

Lemma list_files_not_in_txt_run base_dir (retain_list : gset string) w :
  list_files_not_in_txt base_dir retain_list w =
  (Returned (found_names_of (fs w) ∖ retain_list, retain_list ∖ found_names_of (fs w)), w).
Proof.
  unfold list_files_not_in_txt, os_walk, bind at 1 2.
  rewrite (for_in_walk (fun (_ : list string) (found_names : gset string) f =>
             let '(name, _) := PyPath.splitext (fname f) in ret (found_names ∪ {[name]}))).
  rewrite (for_in_ext _ (fun a rf => ret (a ∪ {[stem (snd rf)]}))).
  - rewrite for_in_pure, fold_found, union_empty_l_L. reflexivity.
  - intros a [r f] w0. unfold stem. simpl. destruct (PyPath.splitext (fname f)). reflexivity.
Qed.

(** C6. The reconciler returns [found ∖ R] and [R ∖ found], where [found]
    is the set of extension-stripped names of the files of the walk, and
    leaves the world as it was; the two results split [found] and [R]
    along their intersection. *)
Theorem reconciler_is_set_difference
    (base_dir : string) (retain_list : gset string) (w : world) :
  let found := found_names_of (fs w) in
  let extra := found ∖ retain_list in
  let missing := retain_list ∖ found in
  list_files_not_in_txt base_dir retain_list w = (Returned (extra, missing), w) /\
  extra ∪ (found ∩ retain_list) = found /\
  extra ∩ retain_list = ∅ /\
  missing ∪ (retain_list ∩ found) = retain_list /\
  missing ∩ found = ∅.
Proof.
  intros found extra missing. subst extra missing. split; [apply list_files_not_in_txt_run|].
  clearbody found. repeat split; apply set_eq; intros x.
  - destruct (decide (x ∈ retain_list)); set_solver.
  - set_solver.
  - destruct (decide (x ∈ found)); set_solver.
  - set_solver.
Qed.

Section DeleteUnlisted.

Variable base_dir : string.
Variable retain_list : gset string.

Lemma du_step_run deleted rf w :
  du_step base_dir retain_list deleted rf w =
  if unlisted retain_list rf then
    match funlink (snd rf) with
    | None =>
        (Returned (deleted ++ [fname (snd rf)])%list,
         World (remove_path (fst rf) (fname (snd rf)) (fs w))
               (trace w ++ [RemoveCalled (path_of base_dir rf)])%list)
    | Some msg =>
        (Raised (OSError msg),
         World (fs w) (trace w ++ [RemoveCalled (path_of base_dir rf)])%list)
    end
  else (Returned deleted, w).
Proof.
  destruct rf as [root f]. unfold du_step, delete_file_if_unlisted, unlisted, stem. simpl.
  destruct (PyPath.splitext (fname f)) as [name ext]. simpl.
  destruct (bool_decide (name ∉ retain_list)); [|reflexivity].
  unfold os_remove, bind, emit, raise, ret, modify_fs, path_of. simpl.
  destruct (funlink f); reflexivity.
Qed.

Lemma prune_cons sel rf l t :
  prune sel (rf :: l) t =
  prune sel l (if sel rf then remove_path (fst rf) (fname (snd rf)) t else t).
Proof. reflexivity. Qed.

Lemma unlisted_removals_cons rf l :
  unlisted_removals base_dir retain_list (rf :: l) =
  ((if unlisted retain_list rf then [RemoveCalled (path_of base_dir rf)] else [])
   ++ unlisted_removals base_dir retain_list l)%list.
Proof.
  unfold unlisted_removals. cbn [List.filter].
  destruct (unlisted retain_list rf); reflexivity.
Qed.

Lemma du_loop_returned l : forall acc w a w',
  for_in l acc (du_step base_dir retain_list) w = (Returned a, w') ->
  fs w' = prune (unlisted retain_list) l (fs w) /\
  a = (acc ++ map (fun rf => fname (snd rf)) (List.filter (unlisted retain_list) l))%list /\
  trace w' = (trace w ++ unlisted_removals base_dir retain_list l)%list.
Proof.
  induction l as [|rf l IH]; intros acc w a w' Hrun.
  - inversion Hrun; subst. unfold unlisted_removals. simpl. rewrite !app_nil_r. auto.
  - cbn [for_in] in Hrun. unfold bind in Hrun. rewrite du_step_run in Hrun.
    rewrite prune_cons, unlisted_removals_cons. cbn [List.filter].
    destruct (unlisted retain_list rf) eqn:Hun.
    + destruct (funlink (snd rf)) as [msg|]; [discriminate|].
      apply IH in Hrun. cbn [fs trace] in Hrun. destruct Hrun as (H1 & H2 & H3).
      rewrite H1, H2, H3. cbn [map]. rewrite <- !app_assoc. auto.
    + apply IH in Hrun. destruct Hrun as (H1 & H2 & H3). auto.
Qed.

Lemma du_loop_all_listed l : forall acc w,
  (forall rf, In rf l -> unlisted retain_list rf = false) ->
  for_in l acc (du_step base_dir retain_list) w = (Returned acc, w).
Proof.
  induction l as [|rf l IH]; intros acc w Hall; [reflexivity|].
  cbn [for_in]. unfold bind. rewrite du_step_run, (Hall rf) by (left; reflexivity).
  apply IH. intros x Hx. apply Hall. right. exact Hx.
Qed.

Lemma du_loop_raises l1 rf l2 msg : forall acc w,
  (forall x, In x l1 -> unlisted retain_list x = true -> funlink (snd x) = None) ->
  unlisted retain_list rf = true -> funlink (snd rf) = Some msg ->
  for_in (l1 ++ rf :: l2) acc (du_step base_dir retain_list) w =
  (Raised (OSError msg),
   World (prune (unlisted retain_list) l1 (fs w))
         (trace w ++ unlisted_removals base_dir retain_list l1
                  ++ [RemoveCalled (path_of base_dir rf)])%list).
Proof.
  induction l1 as [|x l1 IH]; intros acc w Hok Hun Hmsg.
  - cbn [app for_in]. unfold bind. rewrite du_step_run, Hun, Hmsg. reflexivity.
  - rewrite <- app_comm_cons. cbn [for_in]. unfold bind.
    rewrite du_step_run, prune_cons, unlisted_removals_cons.
    destruct (unlisted retain_list x) eqn:Hx.
    + rewrite (Hok x) by (auto using in_eq).
      rewrite IH by (auto using in_cons). cbn [fs trace].
      rewrite <- !app_assoc. reflexivity.
    + rewrite IH by (auto using in_cons). reflexivity.
Qed.

Lemma delete_unlisted_images_flat w :
  delete_unlisted_images base_dir retain_list w =
  for_in (walk_files (fs w)) [] (du_step base_dir retain_list) w.
Proof.
  unfold delete_unlisted_images, os_walk, bind at 1.
  apply (for_in_walk (delete_file_if_unlisted base_dir retain_list)).
Qed.

End DeleteUnlisted.

(** C7. After a run of delete-unlisted that returned, a second run on
    the world it left returns the empty list and changes nothing: no
    file is unlinked and [os.remove] is not even called. *)
Theorem delete_unlisted_idempotent
    (base_dir : string) (retain_list : gset string) (t : tree)
    (deleted : list string) (w1 : world) :
  run (delete_unlisted_images base_dir retain_list) t = (Returned deleted, w1) ->
  delete_unlisted_images base_dir retain_list w1 = (Returned [], w1).
Proof.
  unfold run. rewrite delete_unlisted_images_flat. intros Hrun.
  apply du_loop_returned in Hrun. destruct Hrun as (Hfs & _ & _). simpl in Hfs.
  rewrite delete_unlisted_images_flat. apply du_loop_all_listed.
  intros [rel f] Hin. apply in_walk_files in Hin. rewrite Hfs in Hin.
  apply file_at_prune in Hin. destruct Hin as [Hat Hno].
  destruct (unlisted retain_list (rel, f)) eqn:Hun; [|reflexivity].
  exfalso. apply Hno. exists f. repeat split; [apply in_walk_files; exact Hat|exact Hun].
Qed.

Lemma delete_unlisted_idempotent_witness :
  fst (run (delete_unlisted_images "temp_extracted" {["a"; "b"]}) tree_scenario)
    = Returned ["c.png"] /\
  let w1 := snd (run (delete_unlisted_images "temp_extracted" {["a"; "b"]}) tree_scenario) in
  delete_unlisted_images "temp_extracted" {["a"; "b"]} w1 = (Returned [], w1).
Proof.
  split; [vm_compute; reflexivity|].
  apply (delete_unlisted_idempotent "temp_extracted" {["a"; "b"]} tree_scenario ["c.png"]).
  vm_compute. reflexivity.
Defined.

(** ** A failing [os.remove] *)

(** X24. In delete-unlisted the error of [os.remove] leaves the function: the
    run ends with that [OSError], the files before the failing one are
    gone, and the failing call is the last call to [os.remove]. *)
Lemma delete_unlisted_aborts_on_failure
    (base_dir : string) (retain_list : gset string) (t : tree)
    (l1 l2 : list (list string * file)) (rf : list string * file) (msg : string) :
  walk_files t = (l1 ++ rf :: l2)%list ->
  (forall x, In x l1 -> unlisted retain_list x = true -> funlink (snd x) = None) ->
  unlisted retain_list rf = true ->
  funlink (snd rf) = Some msg ->
  run (delete_unlisted_images base_dir retain_list) t =
  (Raised (OSError msg),
   World (prune (unlisted retain_list) l1 t)
         (unlisted_removals base_dir retain_list l1 ++ [RemoveCalled (path_of base_dir rf)])%list).
Proof.
  intros Hwalk Hok Hun Hmsg. unfold run. rewrite delete_unlisted_images_flat.
  cbn [fs]. rewrite Hwalk. apply (du_loop_raises base_dir retain_list l1 rf l2 msg); assumption.
Qed.

Example delete_unlisted_aborts_on_tree_locked :
  run (delete_unlisted_images "temp_extracted" ∅) tree_locked =
  (Raised (OSError "[Errno 13] Permission denied"),
   World tree_locked [RemoveCalled "temp_extracted/10x10/a.png"]).
Proof. vm_compute. reflexivity. Qed.

(** C3, on the size pass.  With a first file that is too large and cannot
    be unlinked, the size pass does not fail: the [OSError] of
    [os.remove] is caught by the handler meant for the decoder, reported
    as "Could not open", and the pass goes on to call [os.remove] on the
    next file and returns normally. *)
Theorem size_pass_swallows_remove_failure :
  run (check_and_delete_by_size sample_decoder "temp_extracted" 1) tree_locked =
  (Returned ["b.png | Expected: (10, 10), Actual: (50, 50)"],
   World (Dir [] [("10x10", Dir [File "a.png" "50x50" (Some "[Errno 13] Permission denied")] [])])
         [Opened "temp_extracted/10x10/a.png";
          RemoveCalled "temp_extracted/10x10/a.png";
          Warned "Could not open temp_extracted/10x10/a.png: [Errno 13] Permission denied";
          Opened "temp_extracted/10x10/b.png";
          RemoveCalled "temp_extracted/10x10/b.png"]).
Proof. vm_compute. reflexivity. Qed.

(** ** Extraction *)

Lemma content_at_cons t c cs n dat :
  content_at t (c :: cs) n dat <->
  exists d, In (c, d) (tree_subdirs t) /\ content_at d cs n dat.
Proof.
  unfold content_at. simpl. split.
  - intros (f & (d & Hd & Hat) & Hn & Hdat). eauto 7.
  - intros (d & Hd & f & Hat & Hn & Hdat). eauto 7.
Qed.

Lemma content_at_empty rel n dat : ~ content_at (Dir [] []) rel n dat.
Proof.
  destruct rel as [|c cs].
  - intros (f & [] & _).
  - rewrite content_at_cons. intros (d & [] & _).
Qed.

Lemma has_file_true name t :
  has_file name t = true <-> exists dat, content_at t [] name dat.
Proof.
  unfold has_file, content_at. rewrite existsb_exists. simpl. split.
  - intros (f & Hin & Heq). apply String.eqb_eq in Heq. eauto.
  - intros (dat & f & Hin & Hn & _). exists f. rewrite String.eqb_eq. auto.
Qed.

Lemma has_subdir_true name t :
  has_subdir name t = true <-> dir_at t [name].
Proof.
  unfold has_subdir. rewrite existsb_exists. simpl. split.
  - intros ([c d] & Hin & Heq). apply String.eqb_eq in Heq. simpl in Heq. subst. eauto.
  - intros (d & Hin & _). exists (name, d). rewrite String.eqb_eq. auto.
Qed.

Lemma leaf_spec_Some : leaf_spec Some (fun _ => False) (fun _ _ => False).
Proof. intros d d' H. inversion H; subst. split; [reflexivity|]. tauto. Qed.

Lemma leaf_spec_write name data :
  leaf_spec (write_file name data) (fun n => n = name) (fun n dat => n = name /\ dat = data).
Proof.
  intros [fs0 ds] d'. unfold write_file.
  destruct (has_subdir name (Dir fs0 ds)); [discriminate|].
  destruct (has_file name (Dir fs0 ds)) eqn:Hf; intros H; inversion H; subst; clear H;
    (split; [reflexivity|]); intros n dat; unfold content_at; simpl.
  - apply has_file_true in Hf. destruct Hf as (dat0 & f0 & Hin0 & Hn0 & _). simpl in Hin0.
    split.
    + intros (f & Hin & Hn & Hdat). apply in_map_iff in Hin.
      destruct Hin as (g & Hg & Hin). destruct (String.eqb_spec (fname g) name).
      * subst f. simpl in *. auto.
      * subst f. left. split; [eauto|congruence].
    + intros [[(f & Hin & Hn & Hdat) Hk] | [-> ->]].
      * exists f. repeat split; auto. apply in_map_iff. exists f. split; [|exact Hin].
        destruct (String.eqb_spec (fname f) name); [congruence|reflexivity].
      * exists (File name data (funlink f0)). repeat split. apply in_map_iff.
        exists f0. split; [|exact Hin0]. rewrite Hn0, String.eqb_refl. reflexivity.
  - assert (Hnone : forall f, In f fs0 -> fname f <> name).
    { intros f Hin E. apply not_true_iff_false in Hf. apply Hf. apply has_file_true.
      exists (fdata f), f. auto. }
    split.
    + intros (f & Hin & Hn & Hdat). apply in_app_iff in Hin. destruct Hin as [Hin|[<-|[]]].
      * left. split; [eauto|]. intros ->. apply (Hnone f Hin). exact Hn.
      * simpl in *. auto.
    + intros [[(f & Hin & Hn & Hdat) _] | [-> ->]].
      * exists f. rewrite in_app_iff. auto.
      * exists (File name data None). rewrite in_app_iff. simpl. auto.
Qed.

Lemma Forall2_in_r {X Y} (R : X -> Y -> Prop) l k y :
  Forall2 R l k -> In y k -> exists x, In x l /\ R x y.
Proof.
  induction 1 as [|x0 y0 l k HR _ IH]; simpl; [tauto|].
  intros [<-|Hin]; [eauto|]. destruct (IH Hin) as (x & Hx & Hxy). eauto.
Qed.

Lemma Forall2_in_l {X Y} (R : X -> Y -> Prop) l k x :
  Forall2 R l k -> In x l -> exists y, In y k /\ R x y.
Proof.
  induction 1 as [|x0 y0 l k HR _ IH]; simpl; [tauto|].
  intros [<-|Hin]; [eauto|]. destruct (IH Hin) as (y & Hy & Hxy). eauto.
Qed.

Lemma install_cons c cs leaf t :
  install (c :: cs) leaf t =
  if has_file c t then None
  else if has_subdir c t then
    ds' ← mapM (install_sub c cs leaf) (tree_subdirs t); Some (Dir (tree_files t) ds')
  else d' ← install cs leaf (Dir [] []);
       Some (Dir (tree_files t) (tree_subdirs t ++ [(c, d')])).
Proof. reflexivity. Qed.

Lemma install_sub_spec c cs leaf (ds ds' : list (string * tree)) :
  mapM (install_sub c cs leaf) ds = Some ds' ->
  forall c' d', In (c', d') ds' <->
    (c' = c /\ exists d, In (c, d) ds /\ install cs leaf d = Some d') \/
    (c' <> c /\ In (c', d') ds).
Proof.
  intros Hm. apply mapM_Some_1 in Hm. intros c' d'. split.
  - intros Hin. destruct (Forall2_in_r _ _ _ _ Hm Hin) as ([n d] & Hnd & Hstep).
    unfold install_sub in Hstep. simpl in Hstep.
    destruct (String.eqb_spec n c) as [->|Hne].
    + destruct (install cs leaf d) as [d0|] eqn:Hi; simpl in Hstep; [|discriminate].
      inversion Hstep; subst. left. eauto.
    + inversion Hstep; subst. right. auto.
  - intros [[-> (d & Hd & Hi)] | [Hne Hin]].
    + destruct (Forall2_in_l _ _ _ _ Hm Hd) as ([n d0] & Hk & Hstep).
      unfold install_sub in Hstep. simpl in Hstep. rewrite String.eqb_refl, Hi in Hstep.
      simpl in Hstep. inversion Hstep; subst. exact Hk.
    + destruct (Forall2_in_l _ _ _ _ Hm Hin) as ([n d0] & Hk & Hstep).
      unfold install_sub in Hstep. simpl in Hstep.
      destruct (String.eqb_spec c' c); [contradiction|]. inversion Hstep; subst. exact Hk.
Qed.

Section Install.

Variable leaf : tree -> option tree.
Variable K : string -> Prop.
Variable N : string -> string -> Prop.
Hypothesis Hleaf : leaf_spec leaf K N.

(** The files after [install]: those there before, except the ones the
    final action drops, and the ones it adds, in the directory [parts]
    leads to. *)
Lemma install_content parts : forall t t',
  install parts leaf t = Some t' ->
  forall rel n dat,
    content_at t' rel n dat <->
    (content_at t rel n dat /\ ~ (rel = parts /\ K n)) \/ (rel = parts /\ N n dat).
Proof.
  induction parts as [|c cs IH]; intros t t' Hi rel n dat.
  - simpl in Hi. destruct (Hleaf _ _ Hi) as [Hsub Hfiles]. destruct rel as [|c' cs'].
    + rewrite Hfiles. tauto.
    + rewrite !content_at_cons, Hsub. split; [intros H; left; split; [exact H|]|].
      * intros [? _]; discriminate.
      * intros [[H _]|[? _]]; [exact H|discriminate].
  - rewrite install_cons in Hi. destruct (has_file c t) eqn:Hf; [discriminate|].
    destruct (has_subdir c t) eqn:Hs.
    + destruct (mapM (install_sub c cs leaf) (tree_subdirs t)) as [ds'|] eqn:Hm;
        simpl in Hi; [|discriminate]. inversion Hi; subst t'; clear Hi.
      pose proof (install_sub_spec c cs leaf _ _ Hm) as Hspec.
      destruct rel as [|c' cs'].
      * unfold content_at. simpl. split.
        -- intros H. left. split; [exact H|]. intros [? _]; discriminate.
        -- intros [[H _]|[? _]]; [exact H|discriminate].
      * rewrite !content_at_cons. simpl. split.
        -- intros (d' & Hd' & Hc). apply Hspec in Hd'.
           destruct Hd' as [[-> (d & Hd & Hid)] | [Hne Hd']].
           ++ apply (IH _ _ Hid) in Hc. destruct Hc as [[Hc Hno]|[-> Hn]].
              ** left. split; [eauto|]. intros [E Hk]. inversion E; subst. tauto.
              ** right. auto.
           ++ left. split; [eauto|]. intros [E _]. inversion E; congruence.
        -- intros [[(d & Hd & Hc) Hno] | [E Hn]].
           ++ destruct (String.eqb_spec c' c) as [->|Hne].
              ** assert (Hsome : exists d', install cs leaf d = Some d').
                 { apply mapM_Some_1 in Hm.
                   destruct (Forall2_in_l _ _ _ _ Hm Hd) as ([n0 d0] & _ & Hstep).
                   unfold install_sub in Hstep. simpl in Hstep.
                   rewrite String.eqb_refl in Hstep.
                   destruct (install cs leaf d) as [d1|]; [eauto|discriminate]. }
                 destruct Hsome as (d' & Hid). exists d'. split.
                 --- apply Hspec. left. eauto.
                 --- apply (IH _ _ Hid). left. split; [exact Hc|].
                     intros [-> Hk]. apply Hno. auto.
              ** exists d. split; [|exact Hc]. apply Hspec. right. auto.
           ++ inversion E; subst c' cs'. apply has_subdir_true in Hs.
              destruct Hs as (d & Hd & _).
              assert (Hsome : exists d', install cs leaf d = Some d').
              { apply mapM_Some_1 in Hm.
                destruct (Forall2_in_l _ _ _ _ Hm Hd) as ([n0 d0] & _ & Hstep).
                unfold install_sub in Hstep. simpl in Hstep.
                rewrite String.eqb_refl in Hstep.
                destruct (install cs leaf d) as [d1|]; [eauto|discriminate]. }
              destruct Hsome as (d' & Hid). exists d'. split.
              ** apply Hspec. left. eauto.
              ** apply (IH _ _ Hid). right. auto.
    + destruct (install cs leaf (Dir [] [])) as [d0|] eqn:Hid; simpl in Hi; [|discriminate].
      inversion Hi; subst t'; clear Hi.
      assert (Hnodir : forall d, ~ In (c, d) (tree_subdirs t)).
      { intros d Hd. apply not_true_iff_false in Hs. apply Hs. apply has_subdir_true.
        simpl. eauto. }
      destruct rel as [|c' cs'].
      * unfold content_at. simpl. split.
        -- intros H. left. split; [exact H|]. intros [? _]; discriminate.
        -- intros [[H _]|[? _]]; [exact H|discriminate].
      * rewrite !content_at_cons. simpl. split.
        -- intros (d' & Hd' & Hc). apply in_app_iff in Hd'. destruct Hd' as [Hd'|[E|[]]].
           ++ left. split; [eauto|]. intros [E _]. inversion E; subst. apply (Hnodir _ Hd').
           ++ inversion E; subst c' d'. apply (IH _ _ Hid) in Hc.
              destruct Hc as [[Hc _]|[-> Hn]]; [destruct (content_at_empty _ _ _ Hc)|].
              right. auto.
        -- intros [[(d & Hd & Hc) Hno] | [E Hn]].
           ++ exists d. rewrite in_app_iff. auto.
           ++ inversion E; subst c' cs'. exists d0. split.
              ** rewrite in_app_iff. simpl. auto.
              ** apply (IH _ _ Hid). right. auto.
Qed.

End Install.

Lemma dir_at_subdirs t t' p :
  tree_subdirs t' = tree_subdirs t -> dir_at t' p <-> dir_at t p.
Proof. intros E. destruct p; simpl; [tauto|]. rewrite E. tauto. Qed.

Lemma install_sub_total c cs leaf (ds ds' : list (string * tree)) d :
  mapM (install_sub c cs leaf) ds = Some ds' -> In (c, d) ds ->
  exists d', install cs leaf d = Some d'.
Proof.
  intros Hm Hd. apply mapM_Some_1 in Hm.
  destruct (Forall2_in_l _ _ _ _ Hm Hd) as ([n0 d0] & _ & Hstep).
  unfold install_sub in Hstep. simpl in Hstep. rewrite String.eqb_refl in Hstep.
  destruct (install cs leaf d) as [d1|]; [eauto|discriminate].
Qed.

Section InstallDirs.

Variable leaf : tree -> option tree.
Variable K : string -> Prop.
Variable N : string -> string -> Prop.
Hypothesis Hleaf : leaf_spec leaf K N.

(** The directories after [install]: those there before and the ones on
    the way to [parts]. *)
Lemma install_dir parts : forall t t',
  install parts leaf t = Some t' ->
  forall p, dir_at t' p <-> dir_at t p \/ exists r, parts = (p ++ r)%list.
Proof.
  induction parts as [|c cs IH]; intros t t' Hi p.
  - simpl in Hi. destruct (Hleaf _ _ Hi) as [Hsub _].
    rewrite (dir_at_subdirs t t' p Hsub). split; [auto|].
    intros [H|(r & E)]; [exact H|]. symmetry in E. apply app_eq_nil in E.
    destruct E as [-> _]. exact I.
  - rewrite install_cons in Hi. destruct (has_file c t) eqn:Hf; [discriminate|].
    destruct p as [|c' p']; [simpl; split; auto|].
    destruct (has_subdir c t) eqn:Hs.
    + destruct (mapM (install_sub c cs leaf) (tree_subdirs t)) as [ds'|] eqn:Hm;
        simpl in Hi; [|discriminate]. inversion Hi; subst t'; clear Hi.
      pose proof (install_sub_spec c cs leaf _ _ Hm) as Hspec. simpl. split.
      * intros (d' & Hd' & Hp). apply Hspec in Hd'.
        destruct Hd' as [[-> (d & Hd & Hid)] | [Hne Hd']]; [|eauto].
        apply (IH _ _ Hid) in Hp. destruct Hp as [Hp|(r & ->)]; [eauto|].
        right. exists r. reflexivity.
      * intros [(d & Hd & Hp) | (r & E)].
        -- destruct (String.eqb_spec c' c) as [->|Hne].
           ++ destruct (install_sub_total _ _ _ _ _ _ Hm Hd) as (d' & Hid).
              exists d'. split; [apply Hspec; left; eauto|]. apply (IH _ _ Hid). auto.
           ++ exists d. split; [apply Hspec; right; auto|exact Hp].
        -- inversion E; subst c' cs. apply has_subdir_true in Hs.
           destruct Hs as (d & Hd & _).
           destruct (install_sub_total _ _ _ _ _ _ Hm Hd) as (d' & Hid).
           exists d'. split; [apply Hspec; left; eauto|]. apply (IH _ _ Hid). eauto.
    + destruct (install cs leaf (Dir [] [])) as [d0|] eqn:Hid; simpl in Hi; [|discriminate].
      inversion Hi; subst t'; clear Hi. simpl. split.
      * intros (d' & Hd' & Hp). apply in_app_iff in Hd'. destruct Hd' as [Hd'|[E|[]]]; [eauto|].
        inversion E; subst c' d'. apply (IH _ _ Hid) in Hp. right.
        destruct Hp as [Hp|(r & ->)]; [|exists r; reflexivity].
        destruct p' as [|x p']; [exists cs; reflexivity|]. simpl in Hp.
        destruct Hp as (d & [] & _).
      * intros [(d & Hd & Hp) | (r & E)].
        -- exists d. rewrite in_app_iff. auto.
        -- inversion E; subst c' cs. exists d0. split; [rewrite in_app_iff; simpl; auto|].
           apply (IH _ _ Hid). eauto.
Qed.

End InstallDirs.

(** [install] succeeds when no regular file stands on the way and the
    final action is accepted by every directory it can reach. *)
Lemma install_ok (leaf : tree -> option tree) (ok : tree -> Prop) :
  (forall d, ok d -> is_Some (leaf d)) -> ok (Dir [] []) ->
  forall parts t,
    (forall q c r dat, parts = (q ++ c :: r)%list -> ~ content_at t q c dat) ->
    all_at ok t parts ->
    is_Some (install parts leaf t).
Proof.
  intros Hok Hfresh. induction parts as [|c cs IH]; intros t Hfree Hall.
  - simpl. apply Hok. exact Hall.
  - rewrite install_cons.
    destruct (has_file c t) eqn:Hf.
    { apply has_file_true in Hf. destruct Hf as (dat & Hc).
      destruct (Hfree [] c cs dat eq_refl Hc). }
    destruct (has_subdir c t) eqn:Hs.
    + assert (Hm : is_Some (mapM (install_sub c cs leaf) (tree_subdirs t))).
      { apply mapM_is_Some_2. apply List.Forall_forall. intros [n d] Hnd.
        unfold compose, install_sub. simpl.
        destruct (String.eqb_spec n c) as [->|Hne]; [|eauto].
        assert (Hsub : is_Some (install cs leaf d)).
        { apply IH.
          - intros q c' r dat -> Hc. apply (Hfree (c :: q) c' r dat eq_refl).
            apply content_at_cons. eauto.
          - simpl in Hall. apply Hall. exact Hnd. }
        destruct Hsub as (d' & ->). simpl. eauto. }
      destruct Hm as (ds' & ->). simpl. eauto.
    + assert (Hsub : is_Some (install cs leaf (Dir [] []))).
      { apply IH.
        - intros q c' r dat _ Hc. apply (content_at_empty _ _ _ Hc).
        - destruct cs as [|c' cs']; simpl; [exact Hfresh|]. intros d [].  }
      destruct Hsub as (d' & ->). simpl. eauto.
Qed.

Lemma all_at_no_subdir name upper : forall t,
  ~ dir_at t (upper ++ [name]) ->
  all_at (fun d => has_subdir name d = false) t upper.
Proof.
  induction upper as [|c cs IH]; intros t Hno; simpl.
  - apply not_true_iff_false. intros Hs. apply Hno. apply has_subdir_true. exact Hs.
  - intros d Hd. apply IH. intros Hdir. apply Hno. simpl. eauto.
Qed.

Lemma write_file_ok name data d :
  has_subdir name d = false -> is_Some (write_file name data d).
Proof.
  intros Hs. unfold write_file. rewrite Hs. destruct (has_file name d); eauto.
Qed.

(** ** The round trip *)

Lemma prefixb_true p : forall q, prefixb p q = true <-> exists r, q = (p ++ r)%list.
Proof.
  induction p as [|a p IH]; intros q; simpl.
  - split; eauto.
  - destruct q as [|b q].
    + split; [discriminate|]. intros (r & E). discriminate.
    + rewrite andb_true_iff, String.eqb_eq, IH. split.
      * intros [-> (r & ->)]. eauto.
      * intros (r & E). inversion E; subst. eauto.
Qed.

Lemma clash_false_l s m :
  clash s m = false -> is_dir s = false ->
  forall r, member_parts m <> (member_parts s ++ r)%list.
Proof.
  unfold clash. rewrite orb_false_iff. intros [H _] Hs r E. rewrite Hs in H. simpl in H.
  apply not_true_iff_false in H. apply H. apply prefixb_true. eauto.
Qed.

Lemma clash_false_r s m :
  clash s m = false -> is_dir m = false ->
  forall r, member_parts s <> (member_parts m ++ r)%list.
Proof.
  unfold clash. rewrite orb_false_iff. intros [_ H] Hm r E. rewrite Hm in H. simpl in H.
  apply not_true_iff_false in H. apply H. apply prefixb_true. eauto.
Qed.

Lemma all_at_True parts : forall t, all_at (fun _ => True) t parts.
Proof. induction parts as [|c cs IH]; intros t; simpl; auto. Qed.

Lemma extract_member_step m t seen :
  extracted_from t seen ->
  (forall s, In s seen -> clash s m = false) ->
  (is_dir m = false -> member_parts m <> []) ->
  exists t', extract_member m t = Some t' /\
    extracted_from t' (seen ++ [m])%list /\
    forall rel n dat,
      content_at t' rel n dat <->
      (content_at t rel n dat /\ ~ file_member_at m rel n) \/
      (file_member_at m rel n /\ zdata m = dat).
Proof.
  intros [HF HD] Hclash Hne. unfold extract_member, file_member_at.
  assert (Hfree : forall q c r dat, content_at t q c dat ->
            member_parts m <> ((q ++ [c]) ++ r)%list).
  { intros q c r dat Hc. destruct (HF _ _ _ Hc) as (s & Hs & Hfile & Hparts).
    rewrite <- Hparts. apply clash_false_l; auto. }
  destruct (is_dir m) eqn:Hdir.
  - assert (Hok : is_Some (install (member_parts m) Some t)).
    { apply (install_ok Some (fun _ => True)).
      - intros d _. eauto.
      - exact I.
      - intros q c r dat E Hc. apply (Hfree q c r dat Hc).
        rewrite E, <- app_assoc. reflexivity.
      - apply all_at_True. }
    destruct Hok as (t' & Hi). exists t'. split; [exact Hi|].
    pose proof (install_content _ _ _ leaf_spec_Some _ _ _ Hi) as Hcont.
    pose proof (install_dir _ _ _ leaf_spec_Some _ _ _ Hi) as Hdirs.
    assert (Hsame : forall rel n dat, content_at t' rel n dat <-> content_at t rel n dat).
    { intros rel n dat. rewrite Hcont. tauto. }
    split; [split|].
    + intros rel n dat Hc. apply Hsame in Hc. destruct (HF _ _ _ Hc) as (s & Hs & H).
      exists s. rewrite in_app_iff. auto.
    + intros p Hp Hd. apply Hdirs in Hd. destruct Hd as [Hd|(r & E)].
      * destruct (HD p Hp Hd) as (s & Hs & H). exists s. rewrite in_app_iff. auto.
      * exists m. rewrite in_app_iff. simpl. split; [auto|]. split; [eauto|auto].
    + intros rel n dat. rewrite Hsame. split; [intros H; left; split; [exact H|]|].
      * intros [? _]; discriminate.
      * intros [[H _]|[[? _] _]]; [exact H|discriminate].
  - specialize (Hne eq_refl).
    destruct (rev (member_parts m)) as [|name upper] eqn:Hrev.
    { exfalso. apply Hne. rewrite <- (rev_involutive (member_parts m)), Hrev. reflexivity. }
    assert (Hparts : member_parts m = (rev upper ++ [name])%list).
    { rewrite <- (rev_involutive (member_parts m)), Hrev. reflexivity. }
    assert (Hok : is_Some (install (rev upper) (write_file name (zdata m)) t)).
    { apply (install_ok _ (fun d => has_subdir name d = false)).
      - intros d. apply write_file_ok.
      - reflexivity.
      - intros q c r dat E Hc. apply (Hfree q c (r ++ [name])%list dat Hc).
        rewrite Hparts, E, <- !app_assoc. reflexivity.
      - apply all_at_no_subdir. rewrite <- Hparts. intros Hd.
        destruct (HD _ Hne Hd) as (s & Hs & (r & E) & _).
        apply (clash_false_r s m (Hclash s Hs) Hdir r E). }
    destruct Hok as (t' & Hi). exists t'. split; [exact Hi|].
    pose proof (install_content _ _ _ (leaf_spec_write name (zdata m)) _ _ _ Hi) as Hcont.
    pose proof (install_dir _ _ _ (leaf_spec_write name (zdata m)) _ _ _ Hi) as Hdirs.
    assert (Hat : forall rel n, member_parts m = (rel ++ [n])%list <-> rel = rev upper /\ n = name).
    { intros rel n. rewrite Hparts. split.
      - intros E. apply app_inj_tail in E. destruct E; auto.
      - intros [-> ->]. reflexivity. }
    assert (Hchar : forall rel n dat,
              content_at t' rel n dat <->
              (content_at t rel n dat /\ ~ (false = false /\ member_parts m = (rel ++ [n])%list)) \/
              ((false = false /\ member_parts m = (rel ++ [n])%list) /\ zdata m = dat)).
    { intros rel n dat. rewrite Hcont, Hat. split.
      - intros [[Hc Hno]|[-> [-> ->]]]; [left; split; [exact Hc|tauto]|auto].
      - intros [[Hc Hno]|[[_ [-> ->]] <-]]; [left; split; [exact Hc|tauto]|auto]. }
    split; [split|exact Hchar].
    + intros rel n dat Hc. apply Hchar in Hc. destruct Hc as [[Hc _]|[[_ E] _]].
      * destruct (HF _ _ _ Hc) as (s & Hs & H). exists s. rewrite in_app_iff. auto.
      * exists m. rewrite in_app_iff. simpl. auto.
    + intros p Hp Hd. apply Hdirs in Hd. destruct Hd as [Hd|(r & E)].
      * destruct (HD p Hp Hd) as (s & Hs & H). exists s. rewrite in_app_iff. auto.
      * exists m. rewrite in_app_iff. simpl. split; [auto|]. split.
        -- exists (r ++ [name])%list. rewrite Hparts, E, <- app_assoc. reflexivity.
        -- right. rewrite Hparts, E, <- app_assoc. intros Heq.
           apply (f_equal (@length string)) in Heq. rewrite !length_app in Heq.
           simpl in Heq. lia.
Qed.

Lemma extract_all_spec ar : forall seen t,
  extracted_from t seen ->
  (forall s m, In s seen -> In m ar -> clash s m = false) ->
  conflict_free ar = true ->
  (forall m, In m ar -> is_dir m = false -> member_parts m <> []) ->
  exists t', extract_all ar t = Some t' /\
    forall rel n dat,
      content_at t' rel n dat <->
      (content_at t rel n dat /\ ~ exists m, In m ar /\ file_member_at m rel n) \/
      (exists m, In m ar /\ file_member_at m rel n /\ zdata m = dat).
Proof.
  induction ar as [|m ar IH]; intros seen t Hinv Hclash Hcf Hne.
  - exists t. split; [reflexivity|]. intros rel n dat. split.
    + intros H. left. split; [exact H|]. intros (m & [] & _).
    + intros [[H _]|(m & [] & _)]. exact H.
  - simpl in Hcf. apply andb_true_iff in Hcf. destruct Hcf as [Hm Hcf].
    rewrite forallb_forall in Hm.
    destruct (extract_member_step m t seen Hinv) as (t1 & Hex & Hinv1 & Hc1).
    { intros s Hs. apply Hclash; simpl; auto. }
    { apply Hne. simpl. auto. }
    destruct (IH (seen ++ [m])%list t1 Hinv1) as (t' & Hall & Hc').
    { intros s m' Hs Hm'. apply in_app_iff in Hs. destruct Hs as [Hs|[<-|[]]].
      - apply Hclash; simpl; auto.
      - apply negb_true_iff. apply Hm. exact Hm'. }
    { exact Hcf. }
    { intros m' Hm'. apply Hne. simpl. auto. }
    exists t'. simpl. rewrite Hex. simpl. split; [exact Hall|].
    assert (Hexcl : forall rel n m', file_member_at m rel n -> In m' ar ->
                      ~ file_member_at m' rel n).
    { intros rel n m' [Hd Hp] Hin [Hd' Hp'].
      specialize (Hm m' Hin). apply negb_true_iff in Hm.
      apply (clash_false_l m m' Hm Hd []). rewrite app_nil_r. congruence. }
    intros rel n dat. rewrite Hc', Hc1. split.
    + intros [[[[Hc Hno]|[Hat Hdat]] Hno']|(m' & Hin & Hat & Hdat)].
      * left. split; [exact Hc|]. intros (m0 & [<-|Hin] & Hat); [tauto|]. apply Hno'. eauto.
      * right. exists m. simpl. auto.
      * right. exists m'. simpl. auto.
    + intros [[Hc Hno]|(m0 & [<-|Hin] & Hat & Hdat)].
      * left. split.
        -- left. split; [exact Hc|]. intros Hat. apply Hno. exists m. simpl. auto.
        -- intros (m' & Hin & Hat). apply Hno. exists m'. simpl. auto.
      * left. split; [right; auto|]. intros (m' & Hin & Hat'). apply (Hexcl rel n m'); auto.
      * right. eauto.
Qed.

Lemma for_in_extract extract_to ar : forall w t',
  archive_fits extract_to ar = true ->
  extract_all ar (fs w) = Some t' ->
  for_in ar tt (fun _ m => ZipFile_extract extract_to m) w = (Returned tt, World t' (trace w)).
Proof.
  induction ar as [|m ar IH]; intros w t' Hfit H; simpl in *.
  - inversion H; subst. destruct w; reflexivity.
  - apply andb_true_iff in Hfit. destruct Hfit as [Hm Hfit].
    unfold bind, ZipFile_extract at 1. rewrite Hm.
    destruct (extract_member m (fs w)) as [t1|]; simpl in H; [|discriminate].
    apply (IH (World t1 (trace w)) t' Hfit H).
Qed.

Lemma fold_left_snoc {X Y} (g : X -> Y) (l : list X) : forall acc,
  fold_left (fun a x => (a ++ [g x])%list) l acc = (acc ++ map g l)%list.
Proof.
  induction l as [|x l IH]; intros acc; simpl.
  - rewrite app_nil_r. reflexivity.
  - rewrite IH, <- app_assoc. reflexivity.
Qed.

Lemma create_zip_from_folder_run folder_path zip_path w :
  create_zip_from_folder folder_path zip_path w =
  (Returned (map member_of (walk_files (fs w))), w).
Proof.
  unfold create_zip_from_folder, os_walk, bind at 1.
  rewrite (for_in_walk (fun root (zipf : archive) f =>
             ret (zipf ++ [Member (PyPath.relpath (root ++ [fname f])) (fdata f)])%list)).
  rewrite (for_in_ext _ (fun a rf => ret (a ++ [member_of rf])%list)) by reflexivity.
  rewrite for_in_pure, fold_left_snoc. reflexivity.
Qed.

Lemma in_create_zip t m :
  In m (map member_of (walk_files t)) <->
  exists rel n dat, content_at t rel n dat /\ m = Member (PyPath.relpath (rel ++ [n])) dat.
Proof.
  rewrite in_map_iff. split.
  - intros ([rel f] & <- & Hin). apply in_walk_files in Hin.
    exists rel, (fname f), (fdata f). split; [exists f; auto|reflexivity].
  - intros (rel & n & dat & (f & Hat & <- & <-) & ->).
    exists (rel, f). split; [reflexivity|]. apply in_walk_files. exact Hat.
Qed.

Lemma normal_name_parts m :
  normal_name m = true ->
  member_parts m <> [] /\ PyPath.relpath (member_parts m) = zname m.
Proof.
  unfold normal_name, PyPath.relpath. destruct (member_parts m) as [|c cs]; [discriminate|].
  intros H. apply String.eqb_eq in H. split; [discriminate|exact H].
Qed.

Lemma extracted_from_empty : extracted_from (Dir [] []) [].
Proof.
  split.
  - intros rel n dat Hc. destruct (content_at_empty _ _ _ Hc).
  - intros [|c cs] Hp Hd; [contradiction|]. simpl in Hd. destruct Hd as (d & [] & _).
Qed.




(** Two archives outside the theorem above: a name that extraction
    normalizes comes back changed, and a file that stands where another
    member needs a directory makes extraction raise. *)
Example roundtrip_normalizes_names :
  fst (run (roundtrip [Member "./a.png" "1x1"]) (Dir [] [])) =
  Returned [Member "a.png" "1x1"].
Proof. vm_compute. reflexivity. Qed.

Example roundtrip_conflict_raises :
  fst (run (roundtrip [Member "a" "1x1"; Member "a/b.png" "2x2"]) (Dir [] [])) =
  Raised (OSError "cannot extract a/b.png").
Proof. vm_compute. reflexivity. Qed.

(** A name of 256 bytes passes [valid_archive], and the file system
    refuses it: extraction raises and nothing is rebuilt. *)
Example roundtrip_name_too_long_raises :
  valid_archive [Member (string_of_list_ascii (List.repeat "a"%char 256)) "1x1"] = true /\
  archive_fits "temp_extracted"
    [Member (string_of_list_ascii (List.repeat "a"%char 256)) "1x1"] = false /\
  fst (run (roundtrip [Member (string_of_list_ascii (List.repeat "a"%char 256)) "1x1"])
           (Dir [] [])) =
  Raised (OSError ("File name too long: " ++ string_of_list_ascii (List.repeat "a"%char 256))).
Proof. vm_compute. repeat split; reflexivity. Qed.

(** * Further properties of the code *)

(** ** The tolerance test *)

(** X1. With tolerance 0 the test accepts exactly the expected size. *)
Theorem within_zero_tolerance_iff_equal (actual expected : size) :
  is_within_tolerance actual expected 0 = true <-> actual = expected.
Proof.
  destruct actual as [aw ah], expected as [ew eh]. unfold is_within_tolerance. simpl.
  rewrite andb_true_iff, !Z.leb_le. split.
  - intros [Hw Hh]. f_equal; lia.
  - intros E. inversion E; subst. lia.
Qed.

(** X2. A size accepted at one tolerance is accepted at every larger
    one. *)
Theorem within_tolerance_monotone (actual expected : size) (t t' : Z) :
  t <= t' ->
  is_within_tolerance actual expected t = true ->
  is_within_tolerance actual expected t' = true.
Proof.
  unfold is_within_tolerance. rewrite !andb_true_iff, !Z.leb_le. lia.
Qed.

Lemma within_tolerance_monotone_witness :
  is_within_tolerance (101, 199) (100, 200) 3 = true.
Proof.
  apply (within_tolerance_monotone (101, 199) (100, 200) 1 3); [lia|reflexivity].
Defined.

(** X3. The test does not tell the actual size from the expected one:
    swapping them gives the same answer. *)
Theorem within_tolerance_symmetric (a b : size) (t : Z) :
  is_within_tolerance a b t = is_within_tolerance b a t.
Proof.
  unfold is_within_tolerance.
  replace (fst b - fst a) with (- (fst a - fst b)) by lia.
  replace (snd b - snd a) with (- (snd a - snd b)) by lia.
  rewrite !Z.abs_opp. reflexivity.
Qed.

(** ** Folder names *)

Lemma split_length sep s : length (PyStr.split sep s) = S (count_char sep s).
Proof.
  induction s as [|c s IH]; simpl; [reflexivity|].
  destruct (Ascii.eqb c sep); simpl; [rewrite IH; reflexivity|].
  destruct (PyStr.split sep s); simpl in *; [discriminate|exact IH].
Qed.

(** X4. A folder name gives an expected size only if it has exactly one
    [x] or [X]: names such as ["misc"] or ["1x2x3"] give none. *)
Theorem get_expected_size_needs_one_x (folder_name : string) :
  count_char "x" (PyStr.lower folder_name) <> 1%nat ->
  get_expected_size folder_name = None.
Proof.
  intros Hc. unfold get_expected_size.
  pose proof (split_length "x" (PyStr.lower folder_name)) as Hlen.
  destruct (PyStr.split "x" (PyStr.lower folder_name)) as [|w [|h [|k l]]]; try reflexivity.
  simpl in Hlen. exfalso. apply Hc. congruence.
Qed.

Lemma get_expected_size_needs_one_x_witness :
  get_expected_size "1x2x3" = None.
Proof.
  apply get_expected_size_needs_one_x. vm_compute. discriminate.
Defined.

Lemma lower_char_idem c : PyStr.lower_char (PyStr.lower_char c) = PyStr.lower_char c.
Proof.
  destruct c as [[|] [|] [|] [|] [|] [|] [|] [|]]; vm_compute; reflexivity.
Qed.

Lemma lower_idem s : PyStr.lower (PyStr.lower s) = PyStr.lower s.
Proof.
  induction s as [|c s IH]; simpl; [reflexivity|]. rewrite lower_char_idem, IH. reflexivity.
Qed.

(** X5. Letter case does not matter: a folder name and its lower-case
    form give the same expected size. *)
Theorem get_expected_size_ignores_case (folder_name : string) :
  get_expected_size (PyStr.lower folder_name) = get_expected_size folder_name.
Proof. unfold get_expected_size. rewrite lower_idem. reflexivity. Qed.

(** ** Printing and parsing integers *)

Lemma of_uint_acc_val d : forall p, Zpos (Pos.of_uint_acc d p) = uint_val (Zpos p) d.
Proof.
  induction d as [|d IH|d IH|d IH|d IH|d IH|d IH|d IH|d IH|d IH|d IH]; intros p; simpl;
    [reflexivity|..]; rewrite IH; f_equal; lia.
Qed.

Lemma of_uint_val d : Z.of_uint d = uint_val 0 d.
Proof.
  unfold Z.of_uint.
  induction d as [|d IH|d IH|d IH|d IH|d IH|d IH|d IH|d IH|d IH|d IH]; simpl;
    [reflexivity|exact IH|..]; rewrite of_uint_acc_val; reflexivity.
Qed.

(** The digits of a numeral are read back to its value. *)
Lemma digits_of_uint d : forall acc prev,
  d <> Decimal.Nil \/ prev = true ->
  PyStr.digits acc prev (list_ascii_of_string (NilEmpty.string_of_uint d)) =
  Some (uint_val acc d).
Proof.
  induction d as [|d IH|d IH|d IH|d IH|d IH|d IH|d IH|d IH|d IH|d IH]; intros acc prev H;
    [destruct H as [H| ->]; [contradiction|reflexivity]|..];
    simpl; rewrite IH by (right; reflexivity); reflexivity.
Qed.

Lemma uint_string_chars (p : ascii -> bool) d :
  (forall c, PyStr.is_digit c = true -> p c = true) ->
  string_forall p (NilEmpty.string_of_uint d) = true.
Proof.
  intros Hp.
  induction d as [|d IH|d IH|d IH|d IH|d IH|d IH|d IH|d IH|d IH|d IH]; simpl;
    [reflexivity|..]; rewrite IH, andb_true_r; apply Hp; reflexivity.
Qed.

Lemma nilzero_nonnil d :
  d <> Decimal.Nil -> NilZero.string_of_uint d = NilEmpty.string_of_uint d.
Proof. destruct d; [contradiction|reflexivity..]. Qed.

Lemma to_int_cases z :
  (exists d, d <> Decimal.Nil /\ Z.to_int z = Decimal.Pos d /\ 0 <= z) \/
  (exists d, d <> Decimal.Nil /\ Z.to_int z = Decimal.Neg d /\ z < 0).
Proof.
  destruct z as [|p|p]; simpl.
  - left. exists (Decimal.D0 Decimal.Nil). split; [discriminate|split; [reflexivity|lia]].
  - left. exists (Pos.to_uint p).
    split; [apply DecimalPos.Unsigned.to_uint_nonnil|split; [reflexivity|lia]].
  - right. exists (Pos.to_uint p).
    split; [apply DecimalPos.Unsigned.to_uint_nonnil|split; [reflexivity|lia]].
Qed.

Lemma of_Z_chars (p : ascii -> bool) z :
  (forall c, is_numeral_char c = true -> p c = true) ->
  string_forall p (PyStr.of_Z z) = true.
Proof.
  intros Hp. unfold PyStr.of_Z.
  assert (Hd : forall c, PyStr.is_digit c = true -> p c = true).
  { intros c Hc. apply Hp. unfold is_numeral_char. rewrite Hc. reflexivity. }
  destruct (to_int_cases z) as [(d & Hn & -> & _)|(d & Hn & -> & _)]; simpl;
    rewrite (nilzero_nonnil d Hn).
  - apply uint_string_chars. exact Hd.
  - rewrite uint_string_chars by exact Hd. rewrite andb_true_r. apply Hp. reflexivity.
Qed.

Lemma lstrip_no_space l :
  forallb (fun c => negb (PyStr.is_space c)) l = true -> PyStr.lstrip l = l.
Proof.
  destruct l as [|c l]; simpl; [reflexivity|]. rewrite andb_true_iff, negb_true_iff.
  intros [-> _]. reflexivity.
Qed.

Lemma strip_no_space l :
  forallb (fun c => negb (PyStr.is_space c)) l = true -> PyStr.strip l = l.
Proof.
  intros H. unfold PyStr.strip. rewrite (lstrip_no_space l H), lstrip_no_space.
  - apply rev_involutive.
  - rewrite forallb_forall in *. intros c Hc. apply H. apply in_rev. exact Hc.
Qed.

Lemma string_forall_list p s :
  string_forall p s = forallb p (list_ascii_of_string s).
Proof. induction s as [|c s IH]; simpl; [reflexivity|]. rewrite IH. reflexivity. Qed.

Lemma numeral_char_no_space c : is_numeral_char c = true -> negb (PyStr.is_space c) = true.
Proof.
  destruct c as [[|] [|] [|] [|] [|] [|] [|] [|]]; vm_compute; congruence.
Qed.

Lemma z_of_to_int z : Z.of_int (Z.to_int z) = z.
Proof. apply DecimalZ.of_to. Qed.

Lemma count_digits_le l : (PyStr.count_digits l <= List.length l)%nat.
Proof. unfold PyStr.count_digits. apply filter_length_le. Qed.

Lemma list_ascii_length s : List.length (list_ascii_of_string s) = String.length s.
Proof. induction s as [|c s IH]; simpl; [reflexivity|]. rewrite IH. reflexivity. Qed.

(** Below the digit limit [int] is the plain reader of signed numerals. *)
Lemma int_within_limit s :
  (PyStr.count_digits (PyStr.strip (list_ascii_of_string s)) <= PyStr.max_str_digits)%nat ->
  PyStr.int s =
  match PyStr.strip (list_ascii_of_string s) with
  | c :: l =>
      if Ascii.eqb c "+" then PyStr.digits 0 false l
      else if Ascii.eqb c "-" then option_map Z.opp (PyStr.digits 0 false l)
      else PyStr.digits 0 false (c :: l)
  | [] => None
  end.
Proof.
  intros H. unfold PyStr.int.
  destruct (PyStr.strip (list_ascii_of_string s)) as [|c l]; [reflexivity|].
  destruct (Nat.ltb_spec PyStr.max_str_digits (PyStr.count_digits (c :: l))) as [Hlt|_];
    [lia|reflexivity].
Qed.

(** [int] reads back what [str] prints, as long as the digit limit
    allows. *)
Lemma int_of_Z z :
  (String.length (PyStr.of_Z z) <= PyStr.max_str_digits)%nat ->
  PyStr.int (PyStr.of_Z z) = Some z.
Proof.
  intros Hlen.
  assert (Hstrip : PyStr.strip (list_ascii_of_string (PyStr.of_Z z)) =
                   list_ascii_of_string (PyStr.of_Z z)).
  { apply strip_no_space. rewrite <- string_forall_list.
    apply of_Z_chars. apply numeral_char_no_space. }
  rewrite int_within_limit.
  2:{ rewrite Hstrip. etransitivity; [apply count_digits_le|].
      rewrite list_ascii_length. exact Hlen. }
  rewrite Hstrip. clear Hstrip Hlen.
  pose proof (z_of_to_int z) as Hz. unfold PyStr.of_Z.
  destruct (to_int_cases z) as [(d & Hn & E & _)|(d & Hn & E & _)]; rewrite E in *; simpl in *;
    rewrite (nilzero_nonnil d Hn).
  - rewrite of_uint_val in Hz.
    destruct d as [|d|d|d|d|d|d|d|d|d|d]; [contradiction|..]; simpl;
      rewrite digits_of_uint by (right; reflexivity); f_equal; exact Hz.
  - rewrite of_uint_val in Hz. rewrite digits_of_uint by (left; exact Hn).
    simpl. f_equal. exact Hz.
Qed.

Lemma lower_app a b : PyStr.lower (a ++ b) = PyStr.lower a ++ PyStr.lower b.
Proof.
  induction a as [|c a IH]; [reflexivity|].
  rewrite string_app_cons. simpl. rewrite IH. reflexivity.
Qed.

Lemma lower_stable s :
  string_forall (fun c => Ascii.eqb (PyStr.lower_char c) c) s = true -> PyStr.lower s = s.
Proof.
  induction s as [|c s IH]; simpl; [reflexivity|]. rewrite andb_true_iff, Ascii.eqb_eq.
  intros [-> Hs]. rewrite IH by exact Hs. reflexivity.
Qed.

Lemma numeral_char_lower c :
  is_numeral_char c = true -> Ascii.eqb (PyStr.lower_char c) c = true.
Proof.
  destruct c as [[|] [|] [|] [|] [|] [|] [|] [|]]; vm_compute; congruence.
Qed.

Lemma numeral_char_not_x c :
  is_numeral_char c = true -> negb (Ascii.eqb c "x") = true.
Proof.
  destruct c as [[|] [|] [|] [|] [|] [|] [|] [|]]; vm_compute; congruence.
Qed.

Lemma has_char_forall c s :
  string_forall (fun a => negb (Ascii.eqb a c)) s = true -> has_char c s = false.
Proof.
  induction s as [|a s IH]; simpl; [reflexivity|]. rewrite andb_true_iff, negb_true_iff.
  intros [-> Hs]. simpl. apply IH. exact Hs.
Qed.

Lemma split_no_sep sep s : has_char sep s = false -> PyStr.split sep s = [s].
Proof.
  induction s as [|a s IH]; simpl; [reflexivity|]. rewrite orb_false_iff.
  intros [-> Hs]. rewrite IH by exact Hs. reflexivity.
Qed.

Lemma split_app_sep sep a b :
  has_char sep a = false ->
  PyStr.split sep (a ++ String sep b) = a :: PyStr.split sep b.
Proof.
  induction a as [|c a IH]; intros H.
  - rewrite string_app_nil_l. simpl. rewrite Ascii.eqb_refl. reflexivity.
  - simpl in H. apply orb_false_iff in H. destruct H as [Hc Ha].
    rewrite string_app_cons. simpl. rewrite Hc, IH by exact Ha. reflexivity.
Qed.

(** X6. Printing and parsing agree: the folder name made of the width,
    an [x] and the height, each printed in decimal, gives back that
    width and height, for all integers whose printed form stays within
    the digit limit of [int] (4300 characters). *)
Theorem get_expected_size_of_printed (w h : Z) :
  (String.length (PyStr.of_Z w) <= PyStr.max_str_digits)%nat ->
  (String.length (PyStr.of_Z h) <= PyStr.max_str_digits)%nat ->
  get_expected_size (PyStr.of_Z w ++ "x" ++ PyStr.of_Z h) = Some (w, h).
Proof.
  intros Hw Hh. unfold get_expected_size.
  assert (Hlow : forall z, PyStr.lower (PyStr.of_Z z) = PyStr.of_Z z).
  { intros z. apply lower_stable. apply of_Z_chars. apply numeral_char_lower. }
  assert (Hx : forall z, has_char "x" (PyStr.of_Z z) = false).
  { intros z. apply has_char_forall. apply of_Z_chars. apply numeral_char_not_x. }
  rewrite lower_app, Hlow.
  change (PyStr.lower ("x" ++ PyStr.of_Z h)) with (String "x" (PyStr.lower (PyStr.of_Z h))).
  rewrite Hlow, split_app_sep by apply Hx. rewrite split_no_sep by apply Hx.
  rewrite (int_of_Z w Hw), (int_of_Z h Hh). reflexivity.
Qed.

Lemma get_expected_size_of_printed_witness :
  get_expected_size (PyStr.of_Z (-12) ++ "x" ++ PyStr.of_Z 1920) = Some (-12, 1920).
Proof.
  apply (get_expected_size_of_printed (-12) 1920); vm_compute; lia.
Defined.

(** Beyond the limit [int] refuses the numeral, and the folder gives no
    expected size. *)
Example get_expected_size_digit_limit :
  get_expected_size
    (string_of_list_ascii (List.repeat "1"%char 4301) ++ "x1") = None.
Proof. vm_compute. reflexivity. Qed.

(** ** File names and their extension *)

Lemma substring_all s : String.substring 0 (String.length s) s = s.
Proof. induction s as [|c s IH]; simpl; [reflexivity|]. rewrite IH. reflexivity. Qed.

Lemma substring_cut s : forall n,
  String.substring 0 n s ++ String.substring n (String.length s - n) s = s.
Proof.
  induction s as [|c s IH]; intros [|n]; simpl; try reflexivity.
  - rewrite string_app_nil_l, substring_all. reflexivity.
  - rewrite string_app_cons, IH. reflexivity.
Qed.

(** X7. The two parts [os.path.splitext] returns make up the name. *)
Theorem splitext_parts_make_up_name (p : string) :
  fst (PyPath.splitext p) ++ snd (PyPath.splitext p) = p.
Proof.
  unfold PyPath.splitext.
  destruct ((PyPath.rfind PyPath.sep p <? PyPath.rfind "." p) &&
            PyPath.non_dot_before (String.length p) p (PyPath.rfind PyPath.sep p + 1)
              (PyPath.rfind "." p)); simpl.
  - apply substring_cut.
  - apply string_app_nil_r.
Qed.

Lemma rfind_from_range c s : forall i,
  PyPath.rfind_from c s i = -1 \/ i <= PyPath.rfind_from c s i.
Proof.
  induction s as [|a s IH]; intros i; simpl; [auto|].
  destruct (IH (i + 1)) as [E|E].
  - rewrite E. simpl. destruct (Ascii.eqb a c); [right; lia|auto].
  - destruct (0 <=? PyPath.rfind_from c s (i + 1)) eqn:H; [right; lia|].
    destruct (Ascii.eqb a c); [right; lia|auto].
Qed.

Lemma rfind_from_absent c s : forall i,
  has_char c s = false -> PyPath.rfind_from c s i = -1.
Proof.
  induction s as [|a s IH]; intros i; simpl; [reflexivity|].
  rewrite orb_false_iff. intros [Ha Hs]. rewrite IH by exact Hs. simpl. rewrite Ha. reflexivity.
Qed.

(** X8. A name without a dot has no extension: it is its own
    identifier. *)
Theorem splitext_without_dot (p : string) :
  has_char "." p = false -> PyPath.splitext p = (p, EmptyString).
Proof.
  intros H. unfold PyPath.splitext, PyPath.rfind. rewrite (rfind_from_absent "." p 0 H).
  destruct (rfind_from_range PyPath.sep p 0) as [E|E].
  - rewrite E. reflexivity.
  - destruct (PyPath.rfind_from PyPath.sep p 0 <? -1) eqn:Hlt; [|reflexivity].
    apply Z.ltb_lt in Hlt. lia.
Qed.

Lemma splitext_without_dot_witness : PyPath.splitext "README" = ("README", EmptyString).
Proof. apply splitext_without_dot. reflexivity. Defined.

Lemma non_dot_before_lt fuel p i j :
  PyPath.non_dot_before fuel p i j = true -> i < j.
Proof.
  destruct fuel as [|k]; simpl; [discriminate|].
  destruct (i <? j) eqn:H; [intros _; apply Z.ltb_lt; exact H|discriminate].
Qed.

(** X9. The identifier of a file is never empty: a name that is not
    empty keeps at least one character before its extension. *)
Theorem splitext_stem_nonempty (p : string) :
  p <> EmptyString -> fst (PyPath.splitext p) <> EmptyString.
Proof.
  intros Hp. unfold PyPath.splitext.
  destruct ((PyPath.rfind PyPath.sep p <? PyPath.rfind "." p) &&
            PyPath.non_dot_before (String.length p) p (PyPath.rfind PyPath.sep p + 1)
              (PyPath.rfind "." p)) eqn:Hb; simpl; [|exact Hp].
  apply andb_true_iff in Hb. destruct Hb as [_ Hb]. apply non_dot_before_lt in Hb.
  assert (Hsep : -1 <= PyPath.rfind PyPath.sep p).
  { unfold PyPath.rfind. destruct (rfind_from_range PyPath.sep p 0); lia. }
  destruct (Z.to_nat (PyPath.rfind "." p)) as [|n] eqn:Hn; [lia|].
  destruct p as [|c p]; [contradiction|]. simpl. discriminate.
Qed.

Lemma splitext_stem_nonempty_witness : fst (PyPath.splitext ".png") <> EmptyString.
Proof. apply splitext_stem_nonempty. discriminate. Defined.

(** ** The manifest *)

Lemma lstrip_spaces_head l :
  match lstrip_spaces l with
  | [] => True
  | c :: _ => str_isspace c = false
  end.
Proof.
  induction l as [|c l IH]; simpl; [exact I|].
  destruct (str_isspace c) eqn:E; [exact IH|exact E].
Qed.

Lemma lstrip_spaces_id l :
  match l with [] => True | c :: _ => str_isspace c = false end ->
  lstrip_spaces l = l.
Proof. destruct l as [|c l]; simpl; [reflexivity|]. intros ->. reflexivity. Qed.

Lemma lstrip_spaces_snoc l c :
  str_isspace c = false -> lstrip_spaces (l ++ [c]) = (lstrip_spaces l ++ [c])%list.
Proof.
  intros Hc. induction l as [|a l IH]; simpl.
  - rewrite Hc. reflexivity.
  - destruct (str_isspace a); [exact IH|reflexivity].
Qed.

Lemma strip_list_idem l :
  let strip := fun l => rev (lstrip_spaces (rev (lstrip_spaces l))) in
  strip (strip l) = strip l.
Proof.
  simpl. pose proof (lstrip_spaces_head l) as Hhead.
  set (a := lstrip_spaces l) in *.
  assert (Hb : lstrip_spaces (rev (lstrip_spaces (rev a))) = rev (lstrip_spaces (rev a))).
  { apply lstrip_spaces_id. destruct a as [|c a']; [exact I|].
    simpl. rewrite lstrip_spaces_snoc by exact Hhead. rewrite rev_app_distr. simpl. exact Hhead. }
  rewrite Hb, rev_involutive.
  rewrite (lstrip_spaces_id (lstrip_spaces (rev a))) by apply lstrip_spaces_head.
  reflexivity.
Qed.

Lemma str_strip_idem s : str_strip (str_strip s) = str_strip s.
Proof.
  unfold str_strip. rewrite list_ascii_of_string_of_list_ascii.
  f_equal. apply strip_list_idem.
Qed.

(** X10. The retain set holds no empty entry, and every entry is free of
    surrounding white space: stripping it again changes nothing. *)
Theorem retain_list_entries_are_stripped (text x : string) :
  x ∈ load_retain_list text ->
  x <> EmptyString /\ str_strip x = x.
Proof.
  unfold load_retain_list. rewrite elem_of_list_to_set, list_elem_of_In, filter_In.
  rewrite negb_true_iff, String.eqb_neq, in_map_iff.
  intros [(line & <- & _) Hne]. split; [exact Hne|apply str_strip_idem].
Qed.

Lemma retain_list_entries_are_stripped_witness :
  "b" <> EmptyString /\ str_strip "b" = "b".
Proof.
  apply (retain_list_entries_are_stripped
           (String "a" (String CR (String LF (String " " (String LF " b  ")))))).
  vm_compute. reflexivity.
Defined.

(** ** Delete-unlisted and the report *)

Lemma elem_found_names t x :
  x ∈ found_names_of t <-> exists rel f, file_at t rel f /\ stem f = x.
Proof.
  unfold found_names_of. rewrite elem_of_list_to_set, list_elem_of_In, in_map_iff. split.
  - intros ([rel f] & <- & Hin). apply in_walk_files in Hin. eauto.
  - intros (rel & f & Hat & <-). exists (rel, f). split; [reflexivity|].
    apply in_walk_files. exact Hat.
Qed.

Lemma unlisted_true retain_list rel f :
  unlisted retain_list (rel, f) = true <-> stem f ∉ retain_list.
Proof. unfold unlisted. simpl. apply bool_decide_eq_true. Qed.

Lemma unlisted_same_name retain_list rel f g :
  fname g = fname f ->
  unlisted retain_list (rel, g) = unlisted retain_list (rel, f).
Proof. intros E. unfold unlisted, stem. simpl. rewrite E. reflexivity. Qed.

(** The tree once every unlisted file of the walk is gone. *)
Lemma file_at_prune_unlisted retain_list t rel f :
  file_at (prune (unlisted retain_list) (walk_files t) t) rel f <->
  file_at t rel f /\ stem f ∈ retain_list.
Proof.
  rewrite file_at_prune. split.
  - intros [Hat Hno]. split; [exact Hat|].
    destruct (decide (stem f ∈ retain_list)) as [Hin|Hout]; [exact Hin|].
    exfalso. apply Hno. exists f. split; [apply in_walk_files; exact Hat|].
    split; [apply unlisted_true; exact Hout|reflexivity].
  - intros [Hat Hin]. split; [exact Hat|]. intros (g & _ & Hg & Hn).
    rewrite (unlisted_same_name retain_list rel f g Hn) in Hg.
    apply unlisted_true in Hg. contradiction.
Qed.

Lemma delete_unlisted_returned base_dir retain_list t deleted w1 :
  run (delete_unlisted_images base_dir retain_list) t = (Returned deleted, w1) ->
  fs w1 = prune (unlisted retain_list) (walk_files t) t /\
  deleted = map (fun rf => fname (snd rf)) (List.filter (unlisted retain_list) (walk_files t)) /\
  trace w1 = unlisted_removals base_dir retain_list (walk_files t).
Proof.
  unfold run. rewrite delete_unlisted_images_flat. intros Hrun.
  apply du_loop_returned in Hrun. exact Hrun.
Qed.

(** X11. After a run of delete-unlisted that returned, the report has no
    extra name left, and the names it misses are the ones it missed
    before: deleting never makes a listed name disappear. *)
Theorem report_after_delete_unlisted
    (base_dir : string) (retain_list : gset string) (t : tree)
    (deleted : list string) (w1 : world) :
  run (delete_unlisted_images base_dir retain_list) t = (Returned deleted, w1) ->
  list_files_not_in_txt base_dir retain_list w1 =
  (Returned (∅, retain_list ∖ found_names_of t), w1).
Proof.
  intros Hrun. apply delete_unlisted_returned in Hrun. destruct Hrun as (Hfs & _ & _).
  rewrite list_files_not_in_txt_run.
  assert (Hfound : found_names_of (fs w1) = found_names_of t ∩ retain_list).
  { apply set_eq. intros x. rewrite elem_of_intersection, !elem_found_names, Hfs. split.
    - intros (rel & f & Hat & <-). apply file_at_prune_unlisted in Hat.
      destruct Hat as [Hat Hin]. split; [eauto|exact Hin].
    - intros [(rel & f & Hat & <-) Hin]. exists rel, f. split; [|reflexivity].
      apply file_at_prune_unlisted. auto. }
  rewrite Hfound. do 2 f_equal. f_equal; apply set_eq; intros x.
  - rewrite elem_of_difference, elem_of_intersection. split; [tauto|].
    intros H. apply elem_of_empty in H. contradiction.
  - rewrite !elem_of_difference, elem_of_intersection. tauto.
Qed.

Lemma report_after_delete_unlisted_witness :
  let w1 := snd (run (delete_unlisted_images "temp_extracted" {["a"; "b"]}) tree_scenario) in
  list_files_not_in_txt "temp_extracted" {["a"; "b"]} w1 =
  (Returned (∅, {["a"; "b"]} ∖ found_names_of tree_scenario), w1).
Proof.
  apply (report_after_delete_unlisted "temp_extracted" {["a"; "b"]} tree_scenario ["c.png"]).
  vm_compute. reflexivity.
Defined.

Lemma du_loop_prefix base_dir retain_list l : forall acc w,
  exists l1 l2, l = (l1 ++ l2)%list /\
    fs (snd (for_in l acc (du_step base_dir retain_list) w)) =
    prune (unlisted retain_list) l1 (fs w).
Proof.
  induction l as [|rf l IH]; intros acc w.
  - exists [], []. split; reflexivity.
  - cbn [for_in]. unfold bind. rewrite du_step_run.
    destruct (unlisted retain_list rf) eqn:Hun.
    + destruct (funlink (snd rf)) as [msg|].
      * exists [], (rf :: l). split; reflexivity.
      * match goal with |- context [for_in l ?a _ ?w'] =>
          destruct (IH a w') as (l1 & l2 & -> & Hfs) end.
        exists (rf :: l1), l2. split; [reflexivity|].
        rewrite Hfs, prune_cons, Hun. reflexivity.
    + destruct (IH acc w) as (l1 & l2 & -> & Hfs).
      exists (rf :: l1), l2. split; [reflexivity|]. rewrite Hfs, prune_cons, Hun. reflexivity.
Qed.

(** X12. Delete-unlisted never removes a file whose identifier is in the
    retain set, whether the run returns or is cut short by an error. *)
Theorem delete_unlisted_keeps_listed
    (base_dir : string) (retain_list : gset string) (t : tree)
    (rel : list string) (f : file) :
  file_at t rel f ->
  stem f ∈ retain_list ->
  file_at (fs (snd (run (delete_unlisted_images base_dir retain_list) t))) rel f.
Proof.
  intros Hat Hin. unfold run. rewrite delete_unlisted_images_flat. cbn [fs].
  destruct (du_loop_prefix base_dir retain_list (walk_files t) [] (World t []))
    as (l1 & l2 & _ & ->).
  apply file_at_prune. split; [exact Hat|]. intros (g & _ & Hg & Hn).
  rewrite (unlisted_same_name retain_list rel f g Hn) in Hg.
  apply unlisted_true in Hg. contradiction.
Qed.

Lemma delete_unlisted_keeps_listed_witness :
  file_at (fs (snd (run (delete_unlisted_images "temp_extracted" {["a"; "b"]}) tree_scenario)))
          ["50x50"] (sample_file "a.png" "50x50").
Proof.
  apply delete_unlisted_keeps_listed.
  - simpl. eexists. split; [left; reflexivity|]. simpl. left. reflexivity.
  - vm_compute. reflexivity.
Defined.

(** X13. When delete-unlisted returns, every file whose identifier is
    not in the retain set is gone, and the list returned holds the names
    of those files, without their folder, in the order of the walk. *)
Theorem delete_unlisted_removes_all_unlisted
    (base_dir : string) (retain_list : gset string) (t : tree)
    (deleted : list string) (w1 : world) :
  run (delete_unlisted_images base_dir retain_list) t = (Returned deleted, w1) ->
  deleted = map (fun rf => fname (snd rf))
                (List.filter (unlisted retain_list) (walk_files t)) /\
  forall rel f, file_at (fs w1) rel f <-> file_at t rel f /\ stem f ∈ retain_list.
Proof.
  intros Hrun. apply delete_unlisted_returned in Hrun. destruct Hrun as (Hfs & Hdel & _).
  split; [exact Hdel|]. intros rel f. rewrite Hfs. apply file_at_prune_unlisted.
Qed.

Lemma delete_unlisted_removes_all_unlisted_witness :
  ["c.png"] = map (fun rf => fname (snd rf))
                  (List.filter (unlisted {["a"; "b"]}) (walk_files tree_scenario)) /\
  forall rel f,
    file_at (fs (snd (run (delete_unlisted_images "temp_extracted" {["a"; "b"]})
                          tree_scenario))) rel f <->
    file_at tree_scenario rel f /\ stem f ∈ ({["a"; "b"]} : gset string).
Proof.
  apply (delete_unlisted_removes_all_unlisted "temp_extracted" {["a"; "b"]} tree_scenario).
  vm_compute. reflexivity.
Defined.

(** ** More on the size pass *)

Lemma prune_none sel l : forall t,
  (forall rf, In rf l -> sel rf = false) -> prune sel l t = t.
Proof.
  induction l as [|rf l IH]; intros t H; [reflexivity|].
  rewrite prune_cons, (H rf) by (left; reflexivity).
  apply IH. intros x Hx. apply H. right. exact Hx.
Qed.

Lemma size_records_none image_size tolerance rf :
  size_removed image_size tolerance rf = false -> size_records image_size tolerance rf = [].
Proof.
  unfold size_removed, size_records.
  destruct (mismatch image_size tolerance rf) as [[e a]|]; [|reflexivity].
  destruct (funlink (snd rf)); [reflexivity|discriminate].
Qed.

Lemma flat_map_nil {X Y} (g : X -> list Y) l :
  (forall x, In x l -> g x = []) -> flat_map g l = [].
Proof.
  induction l as [|x l IH]; intros H; simpl; [reflexivity|].
  rewrite (H x) by (left; reflexivity). apply IH. intros y Hy. apply H. right. exact Hy.
Qed.

(** X14. The size pass is idempotent: run again on the tree it left, it
    returns the empty list and leaves the tree as it is. *)
Theorem size_pass_idempotent
    (image_size : string -> exn + size) (base_dir : string) (tolerance : Z) (t : tree) :
  let w1 := snd (run (check_and_delete_by_size image_size base_dir tolerance) t) in
  let r2 := check_and_delete_by_size image_size base_dir tolerance w1 in
  fst r2 = Returned [] /\ fs (snd r2) = fs w1.
Proof.
  intros w1 r2. subst r2. rewrite check_and_delete_by_size_run. cbn [fst snd fs].
  assert (Hnone : forall rf, In rf (walk_files (fs w1)) ->
                    size_removed image_size tolerance rf = false).
  { intros [rel g] Hin. apply in_walk_files in Hin. subst w1.
    apply size_pass_file_at in Hin. destruct Hin as [Hat Hno].
    destruct (size_removed image_size tolerance (rel, g)) eqn:Hs; [|reflexivity].
    exfalso. apply Hno. exists g. auto. }
  split.
  - f_equal. apply flat_map_nil. intros rf Hrf. apply size_records_none. apply Hnone. exact Hrf.
  - apply prune_none. exact Hnone.
Qed.

Lemma walk_from_roots t : forall rel name pre,
  map (fun e : entry => fst e) (walk_from pre (remove_path rel name t)) =
  map (fun e : entry => fst e) (walk_from pre t).
Proof.
  induction t as [fs0 ds IH] using tree_ind'. intros rel name pre.
  destruct rel as [|c cs]; [reflexivity|]. simpl. f_equal.
  - f_equal. rewrite map_map. apply map_ext. intros [n d]. simpl.
    destruct (String.eqb n c); reflexivity.
  - rewrite List.Forall_forall in IH. rewrite !flat_map_concat_map, !concat_map, !map_map.
    f_equal. apply map_ext_in. intros [n d] Hin. simpl.
    destruct (String.eqb n c); simpl; [apply (IH _ Hin)|reflexivity].
Qed.

Lemma walk_dirs_prune sel l : forall t, walk_dirs (prune sel l t) = walk_dirs t.
Proof.
  induction l as [|rf l IH]; intros t; [reflexivity|].
  rewrite prune_cons, IH. destruct (sel rf); [|reflexivity].
  unfold walk_dirs, walk. apply walk_from_roots.
Qed.

(** X15. The size pass only takes files away: every file of the tree it
    leaves was there before, and every directory is still there with the
    same subdirectories, also the ones it emptied. *)
Theorem size_pass_only_removes_files
    (image_size : string -> exn + size) (base_dir : string) (tolerance : Z) (t : tree) :
  let t' := fs (snd (run (check_and_delete_by_size image_size base_dir tolerance) t)) in
  (forall rel f, file_at t' rel f -> file_at t rel f) /\
  walk_dirs t' = walk_dirs t.
Proof.
  intros t'. subst t'. split.
  - intros rel f Hat. apply size_pass_file_at in Hat. tauto.
  - unfold run. rewrite check_and_delete_by_size_run. cbn [snd fs]. apply walk_dirs_prune.
Qed.

(** X16. The size pass cannot fail.  It returns whatever the decoder and
    [os.remove] do; a file of the wrong size that [os.remove] refuses to
    unlink stays in the tree, and the refusal is reported with the text
    "Could not open" and the message of the error. *)
Theorem size_pass_reports_refused_removal
    (image_size : string -> exn + size) (base_dir : string) (tolerance : Z)
    (t : tree) (rel : list string) (f : file) (W H aw ah : Z) (msg : string) :
  unique_names t = true ->
  file_at t rel f ->
  get_expected_size (folder_name_of rel) = Some (W, H) ->
  image_size (fdata f) = inr (aw, ah) ->
  is_within_tolerance (aw, ah) (W, H) tolerance = false ->
  funlink f = Some msg ->
  let r := run (check_and_delete_by_size image_size base_dir tolerance) t in
  (exists deleted, fst r = Returned deleted) /\
  file_at (fs (snd r)) rel f /\
  In (RemoveCalled (path_of base_dir (rel, f))) (trace (snd r)) /\
  In (Warned ("Could not open " ++ path_of base_dir (rel, f) ++ ": " ++ msg)) (trace (snd r)).
Proof.
  intros Hu Hat Hexp Hdec Hout Hmsg r. subst r.
  assert (Hmis : mismatch image_size tolerance (rel, f) = Some ((W, H), (aw, ah))).
  { unfold mismatch, expected_of. simpl. rewrite Hdec, Hexp, Hout. reflexivity. }
  repeat split.
  - eexists. apply size_pass_returns.
  - apply size_pass_file_at. split; [exact Hat|]. intros (g & Hg & Hs & Hn).
    assert (g = f) by (apply (unique_names_file rel t); auto). subst g.
    unfold size_removed in Hs. rewrite Hmis in Hs. cbn [snd] in Hs.
    rewrite Hmsg in Hs. discriminate.
  - apply (size_pass_event image_size base_dir tolerance t rel f); [exact Hat|].
    unfold size_events. simpl. rewrite Hdec, Hmis. right. left. reflexivity.
  - apply (size_pass_event image_size base_dir tolerance t rel f); [exact Hat|].
    unfold size_events. simpl. rewrite Hdec, Hmis, Hmsg. right. right. left. reflexivity.
Qed.

Lemma size_pass_reports_refused_removal_witness :
  let r := run (check_and_delete_by_size sample_decoder "temp_extracted" 1) tree_locked in
  (exists deleted, fst r = Returned deleted) /\
  file_at (fs (snd r)) ["10x10"] (File "a.png" "50x50" (Some "[Errno 13] Permission denied")) /\
  In (RemoveCalled "temp_extracted/10x10/a.png") (trace (snd r)) /\
  In (Warned "Could not open temp_extracted/10x10/a.png: [Errno 13] Permission denied")
     (trace (snd r)).
Proof.
  apply (size_pass_reports_refused_removal sample_decoder "temp_extracted" 1 tree_locked
           ["10x10"] (File "a.png" "50x50" (Some "[Errno 13] Permission denied"))
           10 10 50 50 "[Errno 13] Permission denied").
  - reflexivity.
  - simpl. eexists. split; [left; reflexivity|]. simpl. left. reflexivity.
  - reflexivity.
  - reflexivity.
  - reflexivity.
  - reflexivity.
Defined.

(** X17. Every file the size pass unlinks has its line in the list
    returned: the file name, then the expected and the actual size as
    Python prints pairs. *)
Theorem size_pass_records_deleted_file
    (image_size : string -> exn + size) (base_dir : string) (tolerance : Z)
    (t : tree) (rel : list string) (f : file) (W H aw ah : Z) :
  file_at t rel f ->
  get_expected_size (folder_name_of rel) = Some (W, H) ->
  image_size (fdata f) = inr (aw, ah) ->
  is_within_tolerance (aw, ah) (W, H) tolerance = false ->
  funlink f = None ->
  exists deleted,
    fst (run (check_and_delete_by_size image_size base_dir tolerance) t) = Returned deleted /\
    In (fname f ++ " | Expected: (" ++ PyStr.of_Z W ++ ", " ++ PyStr.of_Z H ++
        "), Actual: (" ++ PyStr.of_Z aw ++ ", " ++ PyStr.of_Z ah ++ ")") deleted.
Proof.
  intros Hat Hexp Hdec Hout Hrm. eexists. split; [apply size_pass_returns|].
  apply in_flat_map. exists (rel, f). split; [apply in_walk_files; exact Hat|].
  unfold size_records, mismatch, expected_of. simpl. rewrite Hdec, Hexp, Hout, Hrm.
  left. unfold deletion_record, PyStr.of_size. simpl.
  rewrite !string_app_assoc. reflexivity.
Qed.

Lemma size_pass_records_deleted_file_witness :
  exists deleted,
    fst (run (check_and_delete_by_size sample_decoder "temp_extracted" 0) tree_100x200)
      = Returned deleted /\
    In "a.png | Expected: (100, 200), Actual: (101, 199)" deleted.
Proof.
  apply (size_pass_records_deleted_file sample_decoder "temp_extracted" 0 tree_100x200
           ["100x200"] (sample_file "a.png" "101x199") 100 200 101 199).
  - simpl. eexists. split; [left; reflexivity|]. simpl. left. reflexivity.
  - reflexivity.
  - reflexivity.
  - reflexivity.
  - reflexivity.
Defined.

(** ** Clean All *)

(** X18. After a Clean All that returned, a file that decodes, lies in a
    folder with an expected size and can be unlinked is still in the
    tree exactly when its identifier is in the retain set and its size
    is within the tolerance. *)
Theorem clean_all_keeps_listed_and_fitting
    (image_size : string -> exn + size) (base_dir : string) (retain_list : gset string)
    (tolerance : Z) (t : tree) (deleted deleted_by_size : list string) (w' : world)
    (rel : list string) (f : file) (W H aw ah : Z) :
  run (clean_all base_dir retain_list tolerance image_size) t
    = (Returned (deleted, deleted_by_size), w') ->
  unique_names t = true ->
  file_at t rel f ->
  get_expected_size (folder_name_of rel) = Some (W, H) ->
  image_size (fdata f) = inr (aw, ah) ->
  funlink f = None ->
  file_at (fs w') rel f <->
  stem f ∈ retain_list /\ Z.abs (aw - W) <= tolerance /\ Z.abs (ah - H) <= tolerance.
Proof.
  intros Hrun Hu Hat Hexp Hdec Hrm. unfold run, clean_all, bind in Hrun.
  destruct (delete_unlisted_images base_dir retain_list (World t [])) as [[d1|e] w1] eqn:Hdu;
    [|discriminate].
  apply delete_unlisted_returned in Hdu. destruct Hdu as (Hfs1 & _ & _).
  rewrite check_and_delete_by_size_run in Hrun. unfold ret in Hrun.
  inversion Hrun; subst; clear Hrun. cbn [fs].
  assert (Hsel : size_removed image_size tolerance (rel, f) =
                 negb (is_within_tolerance (aw, ah) (W, H) tolerance)).
  { unfold size_removed, mismatch, expected_of. simpl. rewrite Hdec, Hexp, Hrm.
    destruct (is_within_tolerance (aw, ah) (W, H) tolerance); reflexivity. }
  assert (Hin : is_within_tolerance (aw, ah) (W, H) tolerance = true <->
                Z.abs (aw - W) <= tolerance /\ Z.abs (ah - H) <= tolerance).
  { unfold is_within_tolerance. simpl. rewrite andb_true_iff, !Z.leb_le. tauto. }
  rewrite <- Hin, file_at_prune, Hfs1, file_at_prune_unlisted. split.
  - intros [[_ Hl] Hno]. split; [exact Hl|].
    destruct (is_within_tolerance (aw, ah) (W, H) tolerance); [reflexivity|].
    exfalso. apply Hno. exists f. split; [|auto].
    apply in_walk_files. apply file_at_prune_unlisted. auto.
  - intros [Hl Hw]. split; [auto|]. intros (g & Hg & Hs & Hn).
    apply in_walk_files, file_at_prune_unlisted in Hg. destruct Hg as [Hg _].
    assert (g = f) by (apply (unique_names_file rel t); auto). subst g.
    rewrite Hsel, Hw in Hs. discriminate.
Qed.

Lemma clean_all_keeps_listed_and_fitting_witness :
  file_at (fs (snd (run (clean_all "temp_extracted" {["a"; "b"]} 1 sample_decoder)
                        tree_scenario)))
          ["50x50"] (sample_file "a.png" "50x50") <->
  "a" ∈ ({["a"; "b"]} : gset string) /\ Z.abs (50 - 50) <= 1 /\ Z.abs (50 - 50) <= 1.
Proof.
  apply (clean_all_keeps_listed_and_fitting sample_decoder "temp_extracted" {["a"; "b"]} 1
           tree_scenario ["c.png"] []).
  - vm_compute. reflexivity.
  - reflexivity.
  - simpl. eexists. split; [left; reflexivity|]. simpl. left. reflexivity.
  - reflexivity.
  - reflexivity.
  - reflexivity.
Defined.

(** ** The report *)

(** X19. The report is empty on both sides exactly when the identifiers
    found in the tree are the retain set. *)
Theorem report_empty_iff_same_names
    (base_dir : string) (retain_list : gset string) (w : world) :
  list_files_not_in_txt base_dir retain_list w = (Returned (∅, ∅), w) <->
  found_names_of (fs w) = retain_list.
Proof.
  rewrite list_files_not_in_txt_run. split.
  - intros E. injection E as E1 E2. apply set_eq. intros x.
    assert (H1 : x ∉ found_names_of (fs w) ∖ retain_list).
    { rewrite E1. apply not_elem_of_empty. }
    assert (H2 : x ∉ retain_list ∖ found_names_of (fs w)).
    { rewrite E2. apply not_elem_of_empty. }
    rewrite elem_of_difference in H1, H2.
    destruct (decide (x ∈ retain_list)), (decide (x ∈ found_names_of (fs w))); tauto.
  - intros ->. do 2 f_equal. f_equal; apply set_eq; intros x;
      rewrite elem_of_difference; split; try tauto;
      intros H; apply elem_of_empty in H; contradiction.
Qed.

(** ** Extraction and the old tree *)

Lemma find_none {X} (p : X -> bool) l :
  (forall x, In x l -> p x = false) -> List.find p l = None.
Proof.
  induction l as [|x l IH]; intros H; simpl; [reflexivity|].
  rewrite (H x) by (left; reflexivity). apply IH. intros y Hy. apply H. right. exact Hy.
Qed.

Lemma rmtree_removable t tr :
  all_removable t = true ->
  shutil_rmtree (World t tr) = (Returned tt, World (Dir [] []) tr).
Proof.
  unfold all_removable, shutil_rmtree. rewrite forallb_forall. intros H. cbn [fs trace].
  rewrite find_none; [reflexivity|].
  intros f Hf. apply in_flat_map in Hf. destruct Hf as ([[rel dn] fs0] & He & Hin).
  simpl in Hin.
  assert (Hw : In (rel, f) (walk_files t)).
  { unfold walk_files, walk_files_from. apply in_flat_map. exists (rel, dn, fs0).
    split; [exact He|]. simpl. apply in_map. exact Hin. }
  specialize (H _ Hw). unfold removable in H. simpl in H.
  destruct (funlink f); [discriminate|reflexivity].
Qed.

(** X20. Extraction starts from nothing: when the files of the old tree
    can be unlinked, [extract_zip] gives the result it gives on an empty
    directory, whatever the old tree held. *)
Theorem extract_zip_discards_old_tree
    (zip_file : option archive) (extract_to : string) (t : tree) :
  all_removable t = true ->
  run (extract_zip zip_file extract_to) t = run (extract_zip zip_file extract_to) (Dir [] []).
Proof.
  intros H. unfold run, extract_zip, bind.
  rewrite (rmtree_removable t [] H), (rmtree_removable (Dir [] []) [] eq_refl). reflexivity.
Qed.

Lemma extract_zip_discards_old_tree_witness :
  run (extract_zip (Some archive_files_only) "temp_extracted") tree_nested =
  run (extract_zip (Some archive_files_only) "temp_extracted") (Dir [] []).
Proof. apply extract_zip_discards_old_tree. reflexivity. Defined.

(** X21. An upload that is no zip archive still costs the old tree: the
    tree is removed before the archive is opened, so [extract_zip] raises
    [BadZipFile] and leaves an empty directory. *)
Theorem bad_zip_still_removes_old_tree (extract_to : string) (t : tree) :
  all_removable t = true ->
  exists msg,
    run (extract_zip None extract_to) t = (Raised (BadZipFile msg), World (Dir [] []) []).
Proof.
  intros H. unfold run, extract_zip, bind. rewrite (rmtree_removable t [] H).
  eexists. reflexivity.
Qed.

Lemma bad_zip_still_removes_old_tree_witness :
  exists msg,
    run (extract_zip None "temp_extracted") tree_nested =
    (Raised (BadZipFile msg), World (Dir [] []) []).
Proof. apply bad_zip_still_removes_old_tree. reflexivity. Defined.

(** ** One run of [main] *)

Lemma install_all_files (P : file -> Prop) leaf :
  (forall d d', leaf d = Some d' ->
     tree_subdirs d' = tree_subdirs d /\
     ((forall f, In f (tree_files d) -> P f) -> forall f, In f (tree_files d') -> P f)) ->
  forall parts t t',
    install parts leaf t = Some t' -> all_files P t -> all_files P t'.
Proof.
  intros Hleaf. induction parts as [|c cs IH]; intros t t' Hi Hall rel f Hat.
  - simpl in Hi. destruct (Hleaf _ _ Hi) as [Hsub Hfiles]. destruct rel as [|c' cs'].
    + simpl in Hat. apply Hfiles; [|exact Hat]. intros g Hg. apply (Hall [] g). exact Hg.
    + simpl in Hat. rewrite Hsub in Hat. apply (Hall (c' :: cs') f). exact Hat.
  - rewrite install_cons in Hi. destruct (has_file c t); [discriminate|].
    destruct (has_subdir c t).
    + destruct (mapM (install_sub c cs leaf) (tree_subdirs t)) as [ds'|] eqn:Hm;
        simpl in Hi; [|discriminate]. inversion Hi; subst t'; clear Hi.
      pose proof (install_sub_spec c cs leaf _ _ Hm) as Hspec.
      destruct rel as [|c' cs']; [apply (Hall [] f); exact Hat|].
      simpl in Hat. destruct Hat as (d' & Hd' & Hat). apply Hspec in Hd'.
      destruct Hd' as [[-> (d & Hd & Hid)] | [Hne Hd']].
      * apply (IH d d' Hid) with (rel := cs'); [|exact Hat].
        intros r g Hg. apply (Hall (c :: r) g). simpl. eauto.
      * apply (Hall (c' :: cs') f). simpl. eauto.
    + destruct (install cs leaf (Dir [] [])) as [d0|] eqn:Hid; simpl in Hi; [|discriminate].
      inversion Hi; subst t'; clear Hi.
      destruct rel as [|c' cs']; [apply (Hall [] f); exact Hat|].
      simpl in Hat. destruct Hat as (d' & Hd' & Hat). apply in_app_iff in Hd'.
      destruct Hd' as [Hd'|[E|[]]].
      * apply (Hall (c' :: cs') f). simpl. eauto.
      * inversion E; subst c' d'. apply (IH (Dir [] []) d0 Hid) with (rel := cs'); [|exact Hat].
        intros r g Hg. exfalso. apply (content_at_empty r (fname g) (fdata g)).
        exists g. auto.
Qed.

Lemma extract_member_removable m t t' :
  extract_member m t = Some t' ->
  all_files (fun f => funlink f = None) t -> all_files (fun f => funlink f = None) t'.
Proof.
  unfold extract_member. destruct (is_dir m).
  - apply install_all_files. intros d d' E. inversion E; subst. auto.
  - destruct (rev (member_parts m)) as [|name upper]; [discriminate|].
    apply install_all_files. intros [fs0 ds] d'. unfold write_file.
    destruct (has_subdir name (Dir fs0 ds)); [discriminate|].
    destruct (has_file name (Dir fs0 ds)); intros E; inversion E; subst; clear E;
      (split; [reflexivity|]); simpl; intros Hold f Hf.
    + apply in_map_iff in Hf. destruct Hf as (g & <- & Hg).
      destruct (String.eqb (fname g) name); simpl; apply Hold; exact Hg.
    + apply in_app_iff in Hf. destruct Hf as [Hf|[<-|[]]]; [apply Hold; exact Hf|reflexivity].
Qed.

Lemma extract_all_removable ar : forall t t',
  extract_all ar t = Some t' ->
  all_files (fun f => funlink f = None) t -> all_files (fun f => funlink f = None) t'.
Proof.
  induction ar as [|m ar IH]; intros t t' H Hall; simpl in H.
  - inversion H; subst. exact Hall.
  - destruct (extract_member m t) as [t1|] eqn:Hm; simpl in H; [|discriminate].
    apply (IH t1 t' H). apply (extract_member_removable m t t1 Hm Hall).
Qed.

Lemma conflict_free_same_parts ar : forall m m',
  conflict_free ar = true -> In m ar -> In m' ar ->
  is_dir m = false -> is_dir m' = false ->
  member_parts m = member_parts m' -> m = m'.
Proof.
  induction ar as [|a ar IH]; intros m m' Hcf Hm Hm' Hd Hd' Hp; [destruct Hm|].
  simpl in Hcf. apply andb_true_iff in Hcf. destruct Hcf as [Ha Hcf].
  rewrite forallb_forall in Ha.
  assert (Hpre : prefixb (member_parts m) (member_parts m') = true).
  { apply prefixb_true. exists []. rewrite app_nil_r. symmetry. exact Hp. }
  assert (Hpre' : prefixb (member_parts m') (member_parts m) = true).
  { apply prefixb_true. exists []. rewrite app_nil_r. exact Hp. }
  destruct Hm as [<-|Hm], Hm' as [<-|Hm'].
  - reflexivity.
  - specialize (Ha m' Hm'). apply negb_true_iff in Ha. unfold clash in Ha.
    rewrite Hd, Hpre in Ha. discriminate.
  - specialize (Ha m Hm). apply negb_true_iff in Ha. unfold clash in Ha.
    rewrite Hd, Hpre, orb_true_r in Ha. discriminate.
  - apply IH; assumption.
Qed.

(** What extraction of a valid archive leaves in an emptied tree. *)
Lemma extract_zip_holds ar extract_to t tr :
  valid_archive ar = true -> archive_fits extract_to ar = true -> all_removable t = true ->
  exists t', extract_zip (Some ar) extract_to (World t tr) = (Returned tt, World t' tr) /\
             holds_members ar (fun _ => True) t'.
Proof.
  unfold valid_archive. rewrite andb_true_iff, forallb_forall. intros [Hnorm Hcf] Hfit Hrm.
  assert (Hne : forall m, In m ar -> is_dir m = false -> member_parts m <> []).
  { intros m Hin Hd. specialize (Hnorm m Hin). rewrite Hd in Hnorm.
    apply normal_name_parts. exact Hnorm. }
  destruct (extract_all_spec ar [] (Dir [] []) extracted_from_empty) as (t' & Hex & Hc);
    [intros s m []|exact Hcf|exact Hne|].
  exists t'. split.
  - unfold extract_zip, bind. rewrite (rmtree_removable t tr Hrm).
    apply (for_in_extract extract_to ar (World (Dir [] []) tr) t' Hfit Hex).
  - assert (Hall : all_files (fun f => funlink f = None) t').
    { apply (extract_all_removable ar (Dir [] []) t' Hex).
      intros rel f Hat. exfalso. apply (content_at_empty rel (fname f) (fdata f)).
      exists f. auto. }
    split.
    + intros rel f Hat. split; [apply (Hall rel f Hat)|].
      assert (Hcont : content_at t' rel (fname f) (fdata f)) by (exists f; auto).
      apply Hc in Hcont. destruct Hcont as [[Hcont _]|(m & Hin & [Hd Hp] & Hdat)].
      { destruct (content_at_empty _ _ _ Hcont). }
      exists m. auto.
    + intros m Hin Hd _. destruct (exists_last (Hne m Hin Hd)) as (rel & n & Hp).
      assert (Hcont : content_at t' rel n (zdata m)).
      { apply Hc. right. exists m. unfold file_member_at. auto. }
      destruct Hcont as (f & Hat & <- & Hdat). exists rel, f. auto.
Qed.

Lemma holds_members_ext ar (S S' : member -> Prop) t :
  (forall m, S m <-> S' m) -> holds_members ar S t -> holds_members ar S' t.
Proof.
  intros Hext [Ha Hb]. split.
  - intros rel f Hat. destruct (Ha rel f Hat) as (Hrm & m & Hin & Hd & Hs & Hp).
    split; [exact Hrm|]. exists m. rewrite <- Hext. auto.
  - intros m Hin Hd Hs. apply (Hb m Hin Hd). apply Hext. exact Hs.
Qed.

Lemma passes_bind {A B} ar (m : M A) (k : A -> M B) S S1 S2 :
  passes ar m S S1 -> (forall a, passes ar (k a) S1 S2) -> passes ar (bind m k) S S2.
Proof.
  intros Hm Hk w Hw. destruct (Hm w Hw) as (a & w1 & E1 & H1).
  destruct (Hk a w1 H1) as (b & w2 & E2 & H2).
  exists b, w2. unfold bind. rewrite E1. auto.
Qed.

Lemma passes_ret {A} ar (a : A) S S' :
  (forall m, S m <-> S' m) -> passes ar (ret a) S S'.
Proof.
  intros Hext w Hw. exists a, w. split; [reflexivity|].
  apply (holds_members_ext ar S S' _ Hext Hw).
Qed.

(** A pass behind a button: it runs when the flag is set. *)
Lemma passes_if {A} ar (b : bool) (m : M A) S (Q : member -> Prop) :
  passes ar m S (fun x => S x /\ Q x) ->
  passes ar (if b then m ;;; ret tt else ret tt) S (fun x => S x /\ (b = true -> Q x)).
Proof.
  intros Hm. destruct b.
  - apply (passes_bind ar m _ S (fun x => S x /\ Q x)); [exact Hm|].
    intros _. apply passes_ret. intros x. tauto.
  - apply passes_ret. intros x. split; [intros H; split; [exact H|discriminate]|tauto].
Qed.

Lemma du_loop_ok base_dir retain_list l : forall acc w,
  (forall rf, In rf l -> funlink (snd rf) = None) ->
  exists a tr, for_in l acc (du_step base_dir retain_list) w =
               (Returned a, World (prune (unlisted retain_list) l (fs w)) tr).
Proof.
  induction l as [|rf l IH]; intros acc w Hok.
  - exists acc, (trace w). destruct w; reflexivity.
  - cbn [for_in]. unfold bind. rewrite du_step_run, prune_cons, (Hok rf) by (left; reflexivity).
    destruct (unlisted retain_list rf);
      match goal with |- context [for_in l ?a _ ?w'] =>
        destruct (IH a w') as (a' & tr & ->); [intros x Hx; apply Hok; right; exact Hx|]
      end; eauto.
Qed.

Lemma last_snoc (rel : list string) n : List.last (rel ++ [n]) EmptyString = n.
Proof. apply last_last. Qed.

Lemma removelast_snoc (rel : list string) n : List.removelast (rel ++ [n]) = rel.
Proof. apply removelast_last. Qed.

Lemma delete_unlisted_passes ar base_dir retain_list S :
  passes ar (delete_unlisted_images base_dir retain_list) S
         (fun m => S m /\ member_listed retain_list m = true).
Proof.
  intros w [Ha Hb]. rewrite delete_unlisted_images_flat.
  destruct (du_loop_ok base_dir retain_list (walk_files (fs w)) [] w) as (d & tr & ->).
  { intros [rel f] Hin. apply in_walk_files in Hin. apply (Ha rel f Hin). }
  exists d. eexists. split; [reflexivity|]. cbn [fs].
  assert (Hlisted : forall m rel f, member_parts m = (rel ++ [fname f])%list ->
            (member_listed retain_list m = true <-> stem f ∈ retain_list)).
  { intros m rel f Hp. unfold member_listed, member_base, stem.
    rewrite Hp, last_snoc. apply bool_decide_eq_true. }
  split.
  - intros rel f Hat. apply file_at_prune_unlisted in Hat. destruct Hat as [Hat Hl].
    destruct (Ha rel f Hat) as (Hrm & m & Hin & Hd & Hs & Hp & Hdat).
    split; [exact Hrm|]. exists m. repeat split; auto. apply (Hlisted m rel f Hp). exact Hl.
  - intros m Hin Hd [Hs Hl]. destruct (Hb m Hin Hd Hs) as (rel & f & Hat & Hp & Hdat).
    exists rel, f. split; [|auto]. apply file_at_prune_unlisted. split; [exact Hat|].
    apply (Hlisted m rel f Hp). exact Hl.
Qed.

Lemma size_removed_member image_size tolerance m rel f :
  member_parts m = (rel ++ [fname f])%list -> zdata m = fdata f -> funlink f = None ->
  size_removed image_size tolerance (rel, f) = negb (member_fits image_size tolerance m).
Proof.
  intros Hp Hdat Hrm. unfold size_removed, mismatch, expected_of, member_fits, member_dir.
  cbn [fst snd]. rewrite Hp, removelast_snoc, Hdat, Hrm.
  destruct (image_size (fdata f)) as [e|actual]; [reflexivity|].
  destruct (get_expected_size (folder_name_of rel)) as [expected|]; [|reflexivity].
  destruct (is_within_tolerance actual expected tolerance); reflexivity.
Qed.

Lemma size_pass_passes ar image_size base_dir tolerance S :
  conflict_free ar = true ->
  passes ar (check_and_delete_by_size image_size base_dir tolerance) S
         (fun m => S m /\ member_fits image_size tolerance m = true).
Proof.
  intros Hcf w [Ha Hb]. rewrite check_and_delete_by_size_run.
  eexists. eexists. split; [reflexivity|]. cbn [fs]. split.
  - intros rel f Hat. apply file_at_prune in Hat. destruct Hat as [Hat Hno].
    destruct (Ha rel f Hat) as (Hrm & m & Hin & Hd & Hs & Hp & Hdat).
    split; [exact Hrm|]. exists m. repeat split; auto.
    destruct (member_fits image_size tolerance m) eqn:Hfit; [reflexivity|].
    exfalso. apply Hno. exists f. split; [apply in_walk_files; exact Hat|].
    rewrite (size_removed_member image_size tolerance m rel f Hp Hdat Hrm), Hfit. auto.
  - intros m Hin Hd [Hs Hfit]. destruct (Hb m Hin Hd Hs) as (rel & f & Hat & Hp & Hdat).
    exists rel, f. split; [|auto]. apply file_at_prune. split; [exact Hat|].
    intros (g & Hg & Hsel & Hn). apply in_walk_files in Hg.
    destruct (Ha rel g Hg) as (Hrm & mg & Hing & Hdg & _ & Hpg & Hdatg).
    assert (mg = m).
    { apply (conflict_free_same_parts ar); auto. rewrite Hpg, Hp, Hn. reflexivity. }
    subst mg.
    rewrite (size_removed_member image_size tolerance m rel g Hpg Hdatg Hrm), Hfit in Hsel.
    discriminate.
Qed.

Lemma clean_all_passes ar image_size base_dir retain_list tolerance S :
  conflict_free ar = true ->
  passes ar (clean_all base_dir retain_list tolerance image_size) S
         (fun m => S m /\ (member_listed retain_list m = true /\
                           member_fits image_size tolerance m = true)).
Proof.
  intros Hcf. unfold clean_all.
  apply (passes_bind ar _ _ S (fun m => S m /\ member_listed retain_list m = true));
    [apply delete_unlisted_passes|]. intros d.
  apply (passes_bind ar _ _ _
           (fun m => (S m /\ member_listed retain_list m = true) /\
                     member_fits image_size tolerance m = true));
    [apply size_pass_passes; exact Hcf|]. intros d2.
  apply passes_ret. intros m. tauto.
Qed.



Example main_delete_unlisted_download :
  fst (run (main_actions sample_decoder (Some archive_files_only)
              (Some (String "a" (String LF (String "m" (String LF EmptyString)))))
              1 true false false)
           tree_nested) =
  Returned [Member "100x200/a.png" "100x200"; Member "misc/deep/m.png" "9x9"].
Proof. vm_compute. reflexivity. Qed.

(** A list that does not decode stops the run before the old tree is
    touched; a member whose name the file system refuses stops it after
    the old tree is gone. *)
Example main_undecodable_list :
  run (main_actions sample_decoder (Some archive_files_only) None 1 true false false)
      tree_scenario =
  (Raised (UnicodeDecodeError "invalid start byte"), World tree_scenario []).
Proof. reflexivity. Qed.

Example main_name_too_long :
  run (main_actions sample_decoder
         (Some [Member (string_of_list_ascii (List.repeat "a"%char 256)) "1x1"])
         (Some "a") 1 false false false)
      tree_scenario =
  (Raised (OSError ("File name too long: " ++ string_of_list_ascii (List.repeat "a"%char 256))),
   World (Dir [] []) []).
Proof. vm_compute. reflexivity. Qed.

(** ** A blank manifest and a refused removal *)

Lemma universal_newlines_spaces n : forall s,
  (String.length s <= n)%nat ->
  string_forall str_isspace s = true ->
  string_forall str_isspace (universal_newlines s) = true.
Proof.
  induction n as [|n IH]; intros s Hlen Hs.
  - destruct s; [reflexivity|simpl in Hlen; lia].
  - destruct s as [|c s]; [reflexivity|]. simpl in Hlen, Hs.
    apply andb_true_iff in Hs. destruct Hs as [Hc Hs]. simpl.
    destruct (Ascii.eqb c CR).
    + destruct s as [|c' s']; [reflexivity|]. simpl in Hlen, Hs.
      apply andb_true_iff in Hs. destruct Hs as [Hc' Hs'].
      destruct (Ascii.eqb c' LF); simpl.
      * apply IH; [lia|exact Hs'].
      * apply (IH (String c' s')); [simpl; lia|]. simpl. rewrite Hc', Hs'. reflexivity.
    + simpl. rewrite Hc. apply IH; [lia|exact Hs].
Qed.

Lemma file_lines_spaces s line :
  string_forall str_isspace s = true -> In line (file_lines s) ->
  string_forall str_isspace line = true.
Proof.
  revert line. induction s as [|c s IH]; intros line Hs Hin; [destruct Hin|].
  simpl in Hs. apply andb_true_iff in Hs. destruct Hs as [Hc Hs]. simpl in Hin.
  destruct (Ascii.eqb_spec c LF) as [->|Hne].
  - destruct Hin as [<-|Hin]; [reflexivity|]. apply IH; assumption.
  - destruct (file_lines s) as [|l ls] eqn:El.
    + destruct Hin as [<-|[]]. simpl. rewrite Hc. reflexivity.
    + destruct Hin as [<-|Hin].
      * simpl. rewrite Hc. apply IH; [exact Hs|left; reflexivity].
      * apply IH; [exact Hs|right; exact Hin].
Qed.

Lemma lstrip_spaces_all l : forallb str_isspace l = true -> lstrip_spaces l = [].
Proof.
  induction l as [|c l IH]; simpl; [reflexivity|]. rewrite andb_true_iff.
  intros [-> Hl]. apply IH. exact Hl.
Qed.

Lemma str_strip_spaces s : string_forall str_isspace s = true -> str_strip s = EmptyString.
Proof.
  intros Hs. unfold str_strip. rewrite string_forall_list in Hs.
  rewrite (lstrip_spaces_all _ Hs). reflexivity.
Qed.

(** X23. A manifest made of white space only, blank lines included,
    gives the empty retain set. *)
Theorem blank_manifest_is_empty (text : string) :
  string_forall str_isspace text = true -> load_retain_list text = ∅.
Proof.
  intros Hs. unfold load_retain_list.
  assert (Hnil : List.filter (fun x => negb (String.eqb x EmptyString))
                   (map str_strip (file_lines (universal_newlines text))) = []).
  { destruct (List.filter _ _) as [|x l] eqn:E; [reflexivity|].
    assert (Hin : In x (x :: l)) by (left; reflexivity). rewrite <- E in Hin.
    apply filter_In in Hin. destruct Hin as [Hin Hne]. apply in_map_iff in Hin.
    destruct Hin as (line & <- & Hline).
    rewrite str_strip_spaces in Hne; [discriminate|].
    apply (file_lines_spaces (universal_newlines text)); [|exact Hline].
    apply (universal_newlines_spaces (String.length text)); [lia|exact Hs]. }
  rewrite Hnil. reflexivity.
Qed.

Lemma blank_manifest_is_empty_witness :
  load_retain_list (String " " (String CR (String LF (String LF " ")))) = ∅.
Proof. apply blank_manifest_is_empty. reflexivity. Defined.

Lemma delete_unlisted_aborts_on_failure_witness :
  run (delete_unlisted_images "temp_extracted" ∅) tree_locked =
  (Raised (OSError "[Errno 13] Permission denied"),
   World (prune (unlisted ∅) [] tree_locked)
         (unlisted_removals "temp_extracted" ∅ [] ++
          [RemoveCalled
             (path_of "temp_extracted"
                (["10x10"], File "a.png" "50x50" (Some "[Errno 13] Permission denied")))])%list).
Proof.
  apply (delete_unlisted_aborts_on_failure "temp_extracted" ∅ tree_locked []
           [(["10x10"], sample_file "b.png" "50x50")]
           (["10x10"], File "a.png" "50x50" (Some "[Errno 13] Permission denied"))
           "[Errno 13] Permission denied").
  - reflexivity.
  - intros x [].
  - vm_compute. reflexivity.
  - reflexivity.
Defined.
